(** * governance_auditor.js: selector index, rule engine, call analyzer, report

    A shallow embedding of [src/governance_auditor.js].  JavaScript strings are
    modelled as Rocq strings whose characters are the code units 0..255
    (Latin-1); the risk counters are integers (every value the program adds is
    a small integer, exactly representable as a JavaScript number); the
    selector index, a plain JavaScript object, is a finite map of its own
    properties together with the properties every object literal inherits
    from [Object.prototype]; [crypto.createHash] is a function of the run-time
    library, a parameter of the index build, and [node_createHash] is what
    Node gives the program for it.  Names with characters beyond U+00FF are
    outside the model. *)

From Stdlib Require Import ZArith Lia Ascii String List Bool.
From Stdlib Require Import SpecFloat.
From stdpp Require Import base option list gmap strings pretty.

Local Open Scope Z_scope.

(** ** Strings: the built-in methods the program calls *)

Module Js.

(** [s.slice(0, n)] for a non-negative [n]: the first [n] characters of [s],
    or all of [s] when it is shorter. *)
Fixpoint slice0 (n : nat) (s : string) : string :=
  match n, s with
  | S n', String c s' => String c (slice0 n' s')
  | _, _ => EmptyString
  end.

(** [xs.join(sep)] on an array of strings. *)
Fixpoint join (sep : string) (xs : list string) : string :=
  match xs with
  | [] => EmptyString
  | [x] => x
  | x :: rest => x +:+ sep +:+ join sep rest
  end.

Definition in_range (lo hi n : N) : bool := ((lo <=? n) && (n <=? hi))%N.

(** [String.prototype.toLowerCase] on one Latin-1 code unit: [A-Z] and the
    accented capitals U+00C0..U+00DE (but not the sign U+00D7) move up by 32.
    Characters beyond U+00FF are not represented; some of them lower-case to
    a letter of [a-z] (U+212A to [k]), so nothing here compares a name as
    written with its lower-cased form: the statements are about the
    lower-cased name, which is what the program matches. *)
Definition lower_char (c : ascii) : ascii :=
  let n := N_of_ascii c in
  if in_range 65 90 n || (in_range 192 222 n && negb (n =? 215)%N)
  then ascii_of_N (n + 32) else c.

Fixpoint toLowerCase (s : string) : string :=
  match s with
  | EmptyString => EmptyString
  | String c s' => String (lower_char c) (toLowerCase s')
  end.

(** Canonicalize of a regular expression with the [i] flag (and without [u]):
    a character is compared through its upper-case form.  The upper-case
    forms of U+00B5, U+00DF and U+00FF are not single Latin-1 code units;
    those characters stand for themselves, which leaves the equality of
    canonical forms between Latin-1 characters as it is. *)
Definition canonicalize (c : ascii) : ascii :=
  let n := N_of_ascii c in
  if in_range 97 122 n || (in_range 224 254 n && negb (n =? 247)%N)
  then ascii_of_N (n - 32) else c.

(** The characters [.] does not match: LF and CR (U+2028 and U+2029 are not
    Latin-1). *)
Definition line_terminator (c : ascii) : bool :=
  let n := N_of_ascii c in ((n =? 10) || (n =? 13))%N.

End Js.

(** ** Regular expressions with the [i] flag *)

Module RegExp.

Inductive pattern : Type :=
| Void                       (* matches nothing; only arises in derivatives *)
| Eps                        (* the empty pattern *)
| Chr (c : ascii)            (* a pattern character *)
| Dot                        (* [.] *)
| Cat (r1 r2 : pattern)      (* r1 r2 *)
| Alt (r1 r2 : pattern)      (* r1|r2 *)
| Star (r : pattern).        (* r* *)

(** A run of pattern characters, as in [/mint/]. *)
Fixpoint word (w : string) : pattern :=
  match w with
  | EmptyString => Eps
  | String c w' => Cat (Chr c) (word w')
  end.

Definition char_matches (c x : ascii) : bool :=
  Ascii.eqb (Js.canonicalize c) (Js.canonicalize x).

(** The strings a pattern matches in full. *)
Inductive lang : pattern -> string -> Prop :=
| lang_eps : lang Eps EmptyString
| lang_chr c x : char_matches c x = true -> lang (Chr c) (String x EmptyString)
| lang_dot x : Js.line_terminator x = false -> lang Dot (String x EmptyString)
| lang_cat r1 r2 s1 s2 : lang r1 s1 -> lang r2 s2 -> lang (Cat r1 r2) (s1 +:+ s2)
| lang_alt_l r1 r2 s : lang r1 s -> lang (Alt r1 r2) s
| lang_alt_r r1 r2 s : lang r2 s -> lang (Alt r1 r2) s
| lang_star_nil r : lang (Star r) EmptyString
| lang_star_app r s1 s2 : lang r s1 -> lang (Star r) s2 -> lang (Star r) (s1 +:+ s2).

Fixpoint nullable (r : pattern) : bool :=
  match r with
  | Void | Chr _ | Dot => false
  | Eps | Star _ => true
  | Cat r1 r2 => nullable r1 && nullable r2
  | Alt r1 r2 => nullable r1 || nullable r2
  end.

(** What is left of [r] to match once the character [x] has been read. *)
Fixpoint deriv (x : ascii) (r : pattern) : pattern :=
  match r with
  | Void | Eps => Void
  | Chr c => if char_matches c x then Eps else Void
  | Dot => if Js.line_terminator x then Void else Eps
  | Cat r1 r2 =>
      if nullable r1 then Alt (Cat (deriv x r1) r2) (deriv x r2)
      else Cat (deriv x r1) r2
  | Alt r1 r2 => Alt (deriv x r1) (deriv x r2)
  | Star r1 => Cat (deriv x r1) (Star r1)
  end.

(** Does the pattern match at the start of [s] (ending anywhere)? *)
Fixpoint match_here (r : pattern) (s : string) : bool :=
  nullable r ||
  match s with
  | EmptyString => false
  | String x s' => match_here (deriv x r) s'
  end.

(** [regex.test(s)] for a pattern without the [g] and [y] flags: the matcher
    is tried at every start position, from the left. *)
Fixpoint test (r : pattern) (s : string) : bool :=
  match_here r s ||
  match s with
  | EmptyString => false
  | String _ s' => test r s'
  end.

(** No character of [s] is a line terminator. *)
Fixpoint one_line (s : string) : bool :=
  match s with
  | EmptyString => true
  | String c s' => negb (Js.line_terminator c) && one_line s'
  end.

End RegExp.

Import RegExp.

(** ** The rule table *)

Record Rule : Type := mkRule {
  id : string;
  regex : pattern;
  weight : Z;
  desc : string
}.

(** [/upgrade.*(implementation|proxy)/i] *)
Definition upgrade_proxy_regex : pattern :=
  Cat (word "upgrade") (Cat (Star Dot) (Alt (word "implementation") (word "proxy"))).

(** [/(grant|revoke).*role/i] *)
Definition role_admin_regex : pattern :=
  Cat (Alt (word "grant") (word "revoke")) (Cat (Star Dot) (word "role")).

Definition RULES : list Rule :=
  [ mkRule "delegatecall" (word "delegatecall") 40 "Potential delegatecall use";
    mkRule "upgrade-proxy" upgrade_proxy_regex 25 "Proxy upgrade";
    mkRule "role-admin" role_admin_regex 15 "Role change";
    mkRule "pause" (Alt (word "pause") (word "unpause")) 10 "Pausing contract";
    mkRule "mint" (word "mint") 20 "Token minting" ].

(** ** Numbers

    A JavaScript number is an IEEE 754 binary64 value, here the Standard
    Library's [spec_float]: signed zeros and infinities, NaN, and the finite
    values [m * 2^e]. *)

Module Number.

Definition NaN : spec_float := S754_nan.
Definition zero : spec_float := S754_zero false.

(** [(p / q) / 2^e] as a fraction of integers. *)
Definition scaled (p q e : Z) : Z * Z :=
  if 0 <=? e then (p, q * 2 ^ e) else (p * 2 ^ (- e), q).

(** The [l] with [2^l <= p / q < 2^(l+1)], for positive [p] and [q]. *)
Definition floor_log2 (p q : Z) : Z :=
  let d := Z.log2 p - Z.log2 q in
  let '(n, m) := scaled p q d in
  if m <=? n then d else d - 1.

(** The multiple [k * 2^e] nearest to [p / q], ties going to the even [k]. *)
Definition nearest_even (p q e : Z) : Z :=
  let '(n, m) := scaled p q e in
  let k := n / m in
  let r := n mod m in
  if (m <? 2 * r) || ((m =? 2 * r) && Z.odd k) then k + 1 else k.

(** The binary64 value of the positive rational [p / q] with sign [neg]:
    53 significant bits, exponents of the last bit from -1074 (subnormal
    numbers) to 971, round to nearest with ties to even, an infinity from
    [2^1024] on. *)
Definition round (neg : bool) (p q : Z) : spec_float :=
  let e := Z.max (floor_log2 p q - 52) (-1074) in
  let k := nearest_even p q e in
  if k =? 0 then S754_zero neg
  else if 1024 <? Z.log2 k + 1 + e then S754_infinity neg
  else if k =? 2 ^ 53 then S754_finite neg (Z.to_pos (2 ^ 52)) (e + 1)
  else S754_finite neg (Z.to_pos k) e.

(** The number an integer denotes (exactly, when it is below [2^53]). *)
Definition of_Z (z : Z) : spec_float :=
  if z =? 0 then zero else round (z <? 0) (Z.abs z) 1.

Definition sign (x : spec_float) : bool :=
  match x with
  | S754_zero s | S754_infinity s | S754_finite s _ _ => s
  | S754_nan => false
  end.

(** [x / y] *)
Definition div (x y : spec_float) : spec_float :=
  let s := xorb (sign x) (sign y) in
  match x, y with
  | S754_nan, _ | _, S754_nan => S754_nan
  | S754_infinity _, S754_infinity _ => S754_nan
  | S754_zero _, S754_zero _ => S754_nan
  | S754_infinity _, _ => S754_infinity s
  | _, S754_infinity _ => S754_zero s
  | _, S754_zero _ => S754_infinity s
  | S754_zero _, _ => S754_zero s
  | S754_finite _ m1 e1, S754_finite _ m2 e2 =>
      let '(n, d) := scaled (Z.pos m1) (Z.pos m2) (e2 - e1) in
      round s n d
  end.

(** [x > y]: false whenever an operand is NaN. *)
Definition gt (x y : spec_float) : bool := SFltb y x.

(** ToBoolean of a number: [0], [-0] and NaN are falsy. *)
Definition truthy (x : spec_float) : bool :=
  match x with
  | S754_zero _ | S754_nan => false
  | _ => true
  end.

End Number.

(** *** [Number(s)] on a string (StringToNumber) *)

Module StringToNumber.

(** StrWhiteSpaceChar, among the Latin-1 characters: TAB, LF, VT, FF, CR,
    SP and NBSP. *)
Definition is_space (c : ascii) : bool :=
  let n := N_of_ascii c in (Js.in_range 9 13 n || (n =? 32) || (n =? 160))%N.

Fixpoint trim_start (s : string) : string :=
  match s with
  | String c s' => if is_space c then trim_start s' else s
  | EmptyString => EmptyString
  end.

Fixpoint trim_end (s : string) : string :=
  match s with
  | EmptyString => EmptyString
  | String c s' =>
      match trim_end s' with
      | EmptyString => if is_space c then EmptyString else String c EmptyString
      | t => String c t
      end
  end.

(** The value of a digit of the given base (2, 8, 10 or 16). *)
Definition digit_value (base : Z) (c : ascii) : option Z :=
  let n := Z.of_N (N_of_ascii c) in
  let v := if Js.in_range 48 57 (N_of_ascii c) then n - 48
           else if Js.in_range 97 102 (N_of_ascii c) then n - 87
           else if Js.in_range 65 70 (N_of_ascii c) then n - 55
           else base in
  if v <? base then Some v else None.

(** The value of a string made of digits only. *)
Fixpoint digits_value (base : Z) (acc : Z) (s : string) : option Z :=
  match s with
  | EmptyString => Some acc
  | String c s' =>
      match digit_value base c with
      | Some v => digits_value base (base * acc + v) s'
      | None => None
      end
  end.

(** The leading decimal digits of [s], their number, their value continuing
    [acc], and what follows them. *)
Fixpoint span_digits (acc : Z) (s : string) : nat * Z * string :=
  match s with
  | EmptyString => (O, acc, s)
  | String c s' =>
      match digit_value 10 c with
      | Some v => let '(n, a, rest) := span_digits (10 * acc + v) s' in (S n, a, rest)
      | None => (O, acc, s)
      end
  end.

(** ExponentPart, or nothing, up to the end of the literal. *)
Definition exponent (s : string) : option Z :=
  match s with
  | EmptyString => Some 0
  | String c s' =>
      if Ascii.eqb c "e" || Ascii.eqb c "E" then
        let '(neg, ds) :=
          match s' with
          | String "-" t => (true, t)
          | String "+" t => (false, t)
          | _ => (false, s')
          end in
        match span_digits 0 ds with
        | (S _, v, EmptyString) => Some (if neg then - v else v)
        | _ => None
        end
      else None
  end.

(** The number [m * 10^k] denotes, with the sign [neg]. *)
Definition decimal (neg : bool) (m k : Z) : spec_float :=
  if m =? 0 then S754_zero neg
  else if 0 <=? k then Number.round neg (m * 10 ^ k) 1
  else Number.round neg m (10 ^ (- k)).

(** StrUnsignedDecimalLiteral. *)
Definition unsigned_decimal (neg : bool) (s : string) : spec_float :=
  if String.eqb s "Infinity" then S754_infinity neg else
  let '(ni, vi, r1) := span_digits 0 s in
  let '(dot, nf, v, r2) :=
    match r1 with
    | String "." t => let '(nf, v, r2) := span_digits vi t in (true, nf, v, r2)
    | _ => (false, O, vi, r1)
    end in
  if Nat.eqb (ni + nf) 0 then S754_nan else
  match exponent r2 with
  | Some e => decimal neg v (e - Z.of_nat nf)
  | None => S754_nan
  end.

(** NonDecimalIntegerLiteral: the digits after [0x], [0o] or [0b]. *)
Definition non_decimal (base : Z) (ds : string) : spec_float :=
  match ds, digits_value base 0 ds with
  | String _ _, Some v => Number.of_Z v
  | _, _ => S754_nan
  end.

Definition StringToNumber (str : string) : spec_float :=
  match trim_end (trim_start str) with
  | EmptyString => Number.zero
  | String "0" (String "x" ds) | String "0" (String "X" ds) => non_decimal 16 ds
  | String "0" (String "o" ds) | String "0" (String "O" ds) => non_decimal 8 ds
  | String "0" (String "b" ds) | String "0" (String "B" ds) => non_decimal 2 ds
  | String "-" s => unsigned_decimal true s
  | String "+" s => unsigned_decimal false s
  | s => unsigned_decimal false s
  end.

End StringToNumber.

(** *** [x.toFixed(2)] *)

Definition digit_char (d : Z) : ascii := pretty_N_char (Z.to_N d).

(** [n / 100] printed with two fraction digits, for [0 <= n]. *)
Definition fixed2 (n : Z) : string :=
  pretty (n / 100) +:+ "." +:+
  String (digit_char (n / 10 mod 10)) (String (digit_char (n mod 10)) EmptyString).

(** The integer [n] for which [n / 100] is nearest to [m * 2^e], the larger
    one of two. *)
Definition nearest_hundredth (m e : Z) : Z :=
  let '(n, d) := Number.scaled (100 * m) 1 (- e) in
  (2 * n + d) / (2 * d).

(** [x.toFixed(2)].  From [10^21] on the method prints Number::toString's
    exponent notation, which is not modelled: [None]. *)
Definition toFixed2 (x : spec_float) : option string :=
  match x with
  | S754_nan => Some "NaN"
  | S754_infinity s => Some (if s then "-Infinity" else "Infinity")
  | S754_zero _ => Some "0.00"
  | S754_finite s m e =>
      let '(n, d) := Number.scaled (Z.pos m) 1 (- e) in
      if 10 ^ 21 * d <=? n then None
      else Some ((if s then "-" else "") +:+ fixed2 (nearest_hundredth (Z.pos m) e))
  end.

(** ** Data *)

(** An entry of the interface description; [inputs] and [stateMutability]
    may be missing. *)
Record AbiInput : Type := mkInput { input_type : string }.

Record AbiEntry : Type := mkEntry {
  abi_type : string;
  abi_name : string;
  abi_inputs : option (list AbiInput);
  abi_stateMutability : option string
}.

(** The object stored in the index for a function. *)
Record FunctionMeta : Type := mkMeta {
  name : string;
  inputs : list AbiInput;
  stateMutability : string
}.

(** What a call's [value] field holds. *)
Inductive JsValue : Type :=
| Undefined                  (* the field is missing *)
| Num (x : spec_float)
| Str (s : string).

Record QueuedCall : Type := mkCall {
  to : string;
  data : string;
  value : JsValue
}.

(** The result object: [target] is only set by [main]. *)
Record AnalysisResult : Type := mkResult {
  risk : Z;
  reasons : list string;
  selector : string;
  target : option string
}.

Record Report : Type := mkReport {
  avgRisk : string;
  items : list AnalysisResult
}.

(** How a call of the program ends. *)
Inductive Outcome (A : Type) : Type :=
| Return (a : A)
| TypeError                  (* a TypeError is thrown *)
| DigestNotSupported         (* [Error: Digest method not supported] is thrown *)
| Unmodelled.                (* not modelled: [toFixed] from [10^21] on, see
                                [toFixed2]; a digest name the program never passes *)

Arguments Return {A} a.
Arguments TypeError {A}.
Arguments DigestNotSupported {A}.
Arguments Unmodelled {A}.

Definition bind {A B : Type} (o : Outcome A) (k : A -> Outcome B) : Outcome B :=
  match o with
  | Return a => k a
  | TypeError => TypeError
  | DigestNotSupported => DigestNotSupported
  | Unmodelled => Unmodelled
  end.

(** ** Values: truthiness, [||] and [Number] *)

Definition truthy (v : JsValue) : bool :=
  match v with
  | Undefined => false
  | Num x => Number.truthy x
  | Str s => negb (String.eqb s "")
  end.

(** [v || d] *)
Definition or_else (v d : JsValue) : JsValue := if truthy v then v else d.

(** [Number(v)] *)
Definition ToNumber (v : JsValue) : spec_float :=
  match v with
  | Undefined => Number.NaN
  | Num x => x
  | Str s => StringToNumber.StringToNumber s
  end.

(** ** The selector index as a JavaScript object

    The index is created by the literal [{}]: a lookup [idx[k]] first finds
    the object's own properties and then those of [Object.prototype]. *)

Inductive Property : Type :=
| Entry (m : FunctionMeta)   (* an own property, written by [buildSelectorIndex] *)
| Builtin (fname : string)   (* an inherited method; [fname] is its [name] *)
| Prototype.                 (* [__proto__]: the object [Object.prototype] *)

Definition Object_prototype_methods : list string :=
  [ "__defineGetter__"; "__defineSetter__"; "hasOwnProperty";
    "__lookupGetter__"; "__lookupSetter__"; "isPrototypeOf";
    "propertyIsEnumerable"; "toString"; "valueOf"; "toLocaleString" ].

Definition Object_prototype (k : string) : option Property :=
  if String.eqb k "__proto__" then Some Prototype
  else if String.eqb k "constructor" then Some (Builtin "Object")
  else if existsb (String.eqb k) Object_prototype_methods then Some (Builtin k)
  else None.

(** [idx[k]]; [None] is [undefined]. *)
Definition get (idx : gmap string FunctionMeta) (k : string) : option Property :=
  match idx !! k with
  | Some m => Some (Entry m)
  | None => Object_prototype k
  end.

(** [meta.name]; [None] is [undefined]. *)
Definition prop_name (meta : Property) : option string :=
  match meta with
  | Entry m => Some (name m)
  | Builtin f => Some f
  | Prototype => None
  end.

(** [meta.stateMutability === 'payable'] *)
Definition is_payable (meta : Property) : bool :=
  match meta with
  | Entry m => String.eqb (stateMutability m) "payable"
  | _ => false
  end.

(** ** buildSelectorIndex *)

Definition hex_digit (n : N) : ascii :=
  match n with
  | 0 => "0" | 1 => "1" | 2 => "2" | 3 => "3" | 4 => "4" | 5 => "5"
  | 6 => "6" | 7 => "7" | 8 => "8" | 9 => "9" | 10 => "a" | 11 => "b"
  | 12 => "c" | 13 => "d" | 14 => "e" | _ => "f"
  end%N%char.

(** [digest('hex')]: two lower-case digits for each byte. *)
Fixpoint hex (bs : list Byte.byte) : string :=
  match bs with
  | [] => EmptyString
  | b :: bs' =>
      let n := Byte.to_N b in
      String (hex_digit (n / 16)) (String (hex_digit (n mod 16)) (hex bs'))
  end.

(** [f.stateMutability||'nonpayable']: a missing or empty string gives
    the default. *)
Definition mutability_of (f : AbiEntry) : string :=
  match abi_stateMutability f with
  | Some m => if String.eqb m "" then "nonpayable" else m
  | None => "nonpayable"
  end.

(** [f.inputs||[]] *)
Definition inputs_of (f : AbiEntry) : list AbiInput := default [] (abi_inputs f).

(** The signature [name(type1,type2,...)]. *)
Definition signature (f : AbiEntry) : string :=
  abi_name f +:+ "(" +:+ Js.join "," (map input_type (inputs_of f)) +:+ ")".

Definition meta_of (f : AbiEntry) : FunctionMeta :=
  mkMeta (abi_name f) (inputs_of f) (mutability_of f).

(** What [hash.update(sig).digest()] returns for a Hash object: the digest of
    the text, as bytes. *)
Definition Hash : Type := string -> list Byte.byte.

Section SelectorIndex.

(** [crypto.createHash(algorithm)] of the run-time library: the Hash object
    of the digest of that name, or [Error: Digest method not supported] when
    the library has no digest of that name. *)
Variable createHash : string -> Outcome Hash.

(** ['0x' + crypto.createHash('keccak256').update(sig).digest('hex').slice(0,8)] *)
Definition selector_of (sig : string) : Outcome string :=
  bind (createHash "keccak256") (fun hash =>
  Return ("0x" +:+ Js.slice0 8 (hex (hash sig)))).

(** One turn of the loop of [buildSelectorIndex].  An entry that is no
    function is passed over before the digest is asked for.  The key starts
    with [0x], so the assignment writes an own property. *)
Definition index_entry (idx : gmap string FunctionMeta) (f : AbiEntry)
  : Outcome (gmap string FunctionMeta) :=
  if negb (String.eqb (abi_type f) "function") then Return idx
  else bind (selector_of (signature f)) (fun sel =>
       Return (<[ sel := meta_of f ]> idx)).

(** The loop over the description, [idx] being the index built so far: the
    first turn that throws ends it. *)
Fixpoint index_entries (abi : list AbiEntry) (idx : gmap string FunctionMeta)
  : Outcome (gmap string FunctionMeta) :=
  match abi with
  | [] => Return idx
  | f :: rest => bind (index_entry idx f) (index_entries rest)
  end.

Definition buildSelectorIndex (abi : list AbiEntry) : Outcome (gmap string FunctionMeta) :=
  index_entries abi ∅.

End SelectorIndex.

(** [crypto.createHash] as Node has it, on the name the program passes.  Node
    takes its digests from OpenSSL, which has none called [keccak256]
    ([crypto.getHashes()] lists [sha3-256] and its like, which are other
    functions): the call throws.  Other names are not modelled. *)
Definition node_createHash (algorithm : string) : Outcome Hash :=
  if String.eqb algorithm "keccak256" then DigestNotSupported else Unmodelled.

(** ** analyzeCall *)

(** [res.risk += w; res.reasons.push(reason)] *)
Definition add (res : AnalysisResult) (w : Z) (reason : string) : AnalysisResult :=
  mkResult (risk res + w) (reasons res ++ [reason]) (selector res) (target res).

(** The body of the loop over the rules. *)
Definition apply_rule (name : string) (res : AnalysisResult) (rule : Rule)
  : AnalysisResult :=
  if test (regex rule) name then add res (weight rule) (desc rule) else res.

(** [Number(call.value || 0) > 0] *)
Definition value_attached (call : QueuedCall) : bool :=
  Number.gt (ToNumber (or_else (value call) (Num Number.zero))) Number.zero.

(** The value check that ends [analyzeCall]. *)
Definition value_check (call : QueuedCall) (res : AnalysisResult) : AnalysisResult :=
  if value_attached call then add res 5 "ETH value attached" else res.

Definition analyzeCall (selectorIndex : gmap string FunctionMeta) (call : QueuedCall)
  : Outcome AnalysisResult :=
  let res := mkResult 0 [] (Js.slice0 10 (data call)) None in
  let sel := selector res in
  bind
    match get selectorIndex sel with
    | None => Return (add res 10 "Unknown selector (not in ABI)")
    | Some meta =>
        match prop_name meta with
        | None => TypeError        (* [undefined.toLowerCase()] *)
        | Some n =>
            let name := Js.toLowerCase n in
            let res := fold_left (apply_rule name) RULES res in
            Return (if is_payable meta then add res 5 "Payable call" else res)
        end
    end
    (fun res => Return (value_check call res)).

(** ** main, from the parsed documents on *)

(** [r.target = c.to] *)
Definition set_target (r : AnalysisResult) (t : string) : AnalysisResult :=
  mkResult (risk r) (reasons r) (selector r) (Some t).

(** The loop over the queued calls, [results] being the array built so far. *)
Fixpoint analyze_all (selectorIndex : gmap string FunctionMeta)
    (calls : list QueuedCall) (results : list AnalysisResult)
  : Outcome (list AnalysisResult) :=
  match calls with
  | [] => Return results
  | c :: rest =>
      bind (analyzeCall selectorIndex c) (fun r =>
      analyze_all selectorIndex rest (results ++ [set_target r (to c)]))
  end.

(** [results.reduce((a, b) => a + b.risk, 0)] *)
Definition total_risk (results : list AnalysisResult) : Z :=
  fold_left (fun a b => a + risk b) results 0.

(** The report of the results.  The sum and the length are integers; they
    are exact as JavaScript numbers as long as they stay below [2^53], which
    an array, of less than [2^32] elements, guarantees. *)
Definition report_of (results : list AnalysisResult) : Outcome Report :=
  let totalRisk := total_risk results in
  let len := Z.of_nat (length results) in
  bind
    (if negb (len =? 0)
     then match toFixed2 (Number.div (Number.of_Z totalRisk) (Number.of_Z len)) with
          | Some avg => Return avg
          | None => Unmodelled
          end
     else Return "0.00")
    (fun avg => Return (mkReport avg results)).

Section Main.

Variable createHash : string -> Outcome Hash.

Definition main (abiJson : list AbiEntry) (callsJson : list QueuedCall)
  : Outcome Report :=
  bind (buildSelectorIndex createHash abiJson) (fun selectorIndex =>
  bind (analyze_all selectorIndex callsJson []) report_of).

End Main.

(** ** Vocabulary of the statements *)

Fixpoint string_forall (p : ascii -> bool) (s : string) : bool :=
  match s with
  | EmptyString => true
  | String c s' => p c && string_forall p s'
  end.

(** The digits [0-9a-f]. *)
Definition is_lower_hex (c : ascii) : bool :=
  let n := N_of_ascii c in Js.in_range 48 57 n || Js.in_range 97 102 n.

(** A contribution to a call's risk: what is added, and the reason pushed. *)
Definition contribution : Type := Z * string.

Definition total (cs : list contribution) : Z :=
  fold_right (fun c acc => fst c + acc) 0 cs.

(** The result whose risk and reasons come from the contributions [cs], in
    their order. *)
Definition result_from (sel : string) (cs : list contribution) : AnalysisResult :=
  mkResult (total cs) (map snd cs) sel None.

(** The contributions of the rules of [rules] that match [name], in the order
    of [rules]. *)
Definition rule_part (rules : list Rule) (name : string) : list contribution :=
  map (fun r => (weight r, desc r)) (List.filter (fun r => test (regex r) name) rules).

Definition payable_part (meta : Property) : list contribution :=
  if is_payable meta then [(5, "Payable call")] else [].

Definition value_part (call : QueuedCall) : list contribution :=
  if value_attached call then [(5, "ETH value attached")] else [].

(** [value], coerced to a number, a missing or unparsable value counting as 0. *)
Definition coerced_value (call : QueuedCall) : spec_float :=
  match value call with
  | Undefined => Number.zero
  | v => match ToNumber v with
         | S754_nan => Number.zero
         | x => x
         end
  end.

(** The sum of all risk values. *)
Definition sum_risks (results : list AnalysisResult) : Z :=
  fold_right (fun r acc => risk r + acc) 0 results.

(** [r] is the result of analysing [c], with [c]'s [to] as its target. *)
Definition result_of_call (idx : gmap string FunctionMeta) (c : QueuedCall)
    (r : AnalysisResult) : Prop :=
  exists r0, analyzeCall idx c = Return r0 /\ r = set_target r0 (to c).

(** ** Sample documents, to run the statements on *)

(** A stand-in for a digest of 32 bytes: the first 32 bytes of the text,
    padded with zero bytes. *)
Definition sample_digest : Hash :=
  fun s => firstn 32 (list_byte_of_string s ++ repeat Byte.x00 32).

(** A run-time library that has a digest called [keccak256], with the
    stand-in for it. *)
Definition sample_createHash (algorithm : string) : Outcome Hash :=
  if String.eqb algorithm "keccak256" then Return sample_digest else DigestNotSupported.

Definition mint_entry : AbiEntry :=
  mkEntry "function" "mint" (Some [mkInput "address"; mkInput "uint256"]) None.

(** Two functions whose signatures have the same first four bytes of
    Keccak-256, [a9059cbb]. *)
Definition transfer_entry : AbiEntry :=
  mkEntry "function" "transfer" (Some [mkInput "address"; mkInput "uint256"])
          (Some "nonpayable").

Definition many_msg_babbage_entry : AbiEntry :=
  mkEntry "function" "many_msg_babbage" (Some [mkInput "bytes1"]) (Some "nonpayable").

Definition grantRole_meta : FunctionMeta :=
  mkMeta "grantRole" [mkInput "bytes32"; mkInput "address"] "payable".

Definition upgradeTo_meta : FunctionMeta :=
  mkMeta "upgradeToAndCallProxy" [mkInput "address"] "nonpayable".

Definition sample_calls : list QueuedCall :=
  [ mkCall "0xToken" "0x40c10f19000000000000000000000000" (Num (Number.of_Z 0));
    mkCall "0xToken" "0x40c10f19000000000000000000000001" (Str "1");
    mkCall "0xVault" "0xdeadbeef" Undefined ].

Definition sample_results : list AnalysisResult :=
  [ mkResult 10 ["Unknown selector (not in ABI)"] "0x40c10f19" (Some "0xToken");
    mkResult 15 ["Unknown selector (not in ABI)"; "ETH value attached"] "0x40c10f19"
             (Some "0xToken");
    mkResult 10 ["Unknown selector (not in ABI)"] "0xdeadbeef" (Some "0xVault") ].

(** ** parseArgs *)

(** The object [args]; [None] is [undefined], what [process.argv[i+1]] is
    past the end of the array. *)
Record Args : Type := mkArgs {
  args_abi : option string;
  args_calls : option string
}.

(** The body of the loop of [parseArgs], [flag] being [process.argv[i]] and
    [v] being [process.argv[i+1]]. *)
Definition set_flag (args : Args) (flag : string) (v : option string) : Args :=
  let args := if String.eqb flag "--abi" then mkArgs v (args_calls args) else args in
  if String.eqb flag "--calls" then mkArgs (args_abi args) v else args.

(** The loop of [parseArgs] from the index [i] on, [rest] being the arguments
    from [i] on: it steps by two. *)
Fixpoint parse_pairs (rest : list string) (args : Args) : Args :=
  match rest with
  | [] => args
  | [flag] => set_flag args flag None
  | flag :: v :: rest' => parse_pairs rest' (set_flag args flag (Some v))
  end.

(** [parseArgs], [argv] being [process.argv]: the loop starts at index 2. *)
Definition parseArgs (argv : list string) : Args :=
  parse_pairs (skipn 2 argv) (mkArgs (Some "abi.json") (Some "calls.json")).

(** The arguments the loop looks at as flags: those at the offsets 0, 2, 4,
    ... of [rest]. *)
Fixpoint flag_positions (rest : list string) : list string :=
  match rest with
  | [] => []
  | [flag] => [flag]
  | flag :: _ :: rest' => flag :: flag_positions rest'
  end.

(** ** More vocabulary *)

(** [f.type === 'function'] *)
Definition is_function (f : AbiEntry) : bool := String.eqb (abi_type f) "function".

(** [w] occurs in [s]. *)
Definition contains (w s : string) : Prop := exists a b, s = a +:+ w +:+ b.

(** [w1] occurs in [s] and [w2] occurs after it, with no line terminator
    between the two. *)
Definition followed_by (w1 w2 s : string) : Prop :=
  exists a mid b, s = a +:+ w1 +:+ mid +:+ w2 +:+ b /\ one_line mid = true.

(** The letters [a-z]. *)
Definition is_lower_letter (c : ascii) : bool := Js.in_range 97 122 (N_of_ascii c).

(** The digits [0-9]. *)
Definition is_digit (c : ascii) : bool := Js.in_range 48 57 (N_of_ascii c).

(** The integer a string of decimal digits denotes. *)
Fixpoint digits_to_Z (acc : Z) (s : string) : Z :=
  match s with
  | EmptyString => acc
  | String c s' => digits_to_Z (10 * acc + (Z.of_N (N_of_ascii c) - 48)) s'
  end.

(** The first ten characters of a call's data. *)
Definition call_selector (c : QueuedCall) : string := Js.slice0 10 (data c).

(** The description has an entry of type [function]. *)
Definition has_function (abi : list AbiEntry) : bool := existsb is_function abi.

(** What a call can get when no rule matches and nothing is payable: the
    unknown-selector penalty or nothing, and then the value penalty or
    nothing. *)
Definition unflagged_scores : list (Z * list string) :=
  [ (0, []); (5, ["ETH value attached"]);
    (10, ["Unknown selector (not in ABI)"]);
    (15, ["Unknown selector (not in ABI)"; "ETH value attached"]) ].

(** A key of 10 characters: [0x] and 8 digits among [0-9a-f]. *)
Definition well_formed_key (k : string) : Prop :=
  String.length k = 10%nat /\
  exists h, k = "0x" +:+ h /\ String.length h = 8%nat /\
            string_forall is_lower_hex h = true.

(** [s] writes [n / 100] with exactly two fraction digits: decimal digits
    without a sign or a needless leading zero, a point, and two more digits;
    read without the point, the digits are [n]. *)
Definition two_fraction_digits (s : string) (n : Z) : Prop :=
  exists ip f,
    s = ip +:+ "." +:+ f /\ String.length f = 2%nat /\
    string_forall is_digit (ip +:+ f) = true /\
    (ip = "0" \/ exists c r, ip = String c r /\ c <> "0"%char) /\
    digits_to_Z 0 (ip +:+ f) = n.

(** ** More sample documents *)

Definition transfer_event : AbiEntry :=
  mkEntry "event" "Transfer" (Some [mkInput "address"; mkInput "address"; mkInput "uint256"]) None.

Definition pause_entry : AbiEntry := mkEntry "function" "pause" None (Some "").

Definition error_entry : AbiEntry :=
  mkEntry "error" "Unauthorized" (Some [mkInput "address"]) None.

(** A description without a function, and one with two. *)
Definition sample_abi : list AbiEntry := [transfer_event; error_entry].

Definition erc20_abi : list AbiEntry := [transfer_event; mint_entry; pause_entry].

Definition mintAndPause_meta : FunctionMeta := mkMeta "mintAndPause" [] "nonpayable".

Definition mintAndPause_result : AnalysisResult :=
  mkResult 30 ["Pausing contract"; "Token minting"] "0x12345678" None.

Definition sample_report : Report := mkReport "11.67" sample_results.

Definition sample_index : gmap string FunctionMeta :=
  <[ "0x12345678" := mintAndPause_meta ]>
    (<[ "0x4f1ef286" := upgradeTo_meta ]> (<[ "0x2f2ff15d" := grantRole_meta ]> ∅)).

Definition sample_call : QueuedCall := mkCall "0xToken" "0x12345678" Undefined.

Definition upgrade_call : QueuedCall := mkCall "0xProxy" "0x4f1ef286" Undefined.

Definition upgradeTo_result : AnalysisResult :=
  mkResult 25 ["Proxy upgrade"] "0x4f1ef286" None.

Definition grant_call : QueuedCall := mkCall "0xDao" "0x2f2ff15d00" (Num Number.zero).

Definition grantRole_result : AnalysisResult :=
  mkResult 20 ["Role change"; "Payable call"] "0x2f2ff15d" None.

(** * Properties *)

(** ** Strings *)

Section StringFacts.

Lemma append_nil_l (s : string) : "" +:+ s = s.
Proof. reflexivity. Qed.

Lemma append_cons (c : ascii) (s t : string) : String c s +:+ t = String c (s +:+ t).
Proof. reflexivity. Qed.

Lemma append_nil_r (s : string) : s +:+ "" = s.
Proof. induction s as [|c s IH]; [reflexivity | now rewrite append_cons, IH]. Qed.

Lemma append_assoc (s t u : string) : (s +:+ t) +:+ u = s +:+ t +:+ u.
Proof. induction s as [|c s IH]; [reflexivity | now rewrite !append_cons, IH]. Qed.

Lemma length_append (s t : string) :
  String.length (s +:+ t) = (String.length s + String.length t)%nat.
Proof.
  induction s as [|c s IH]; [reflexivity | rewrite append_cons; simpl; now rewrite IH].
Qed.

Lemma append_empty (s t : string) : s +:+ t = "" -> s = "" /\ t = "".
Proof. destruct s; [rewrite append_nil_l; tauto | rewrite append_cons; discriminate]. Qed.

Lemma length_slice0 (n : nat) (s : string) :
  String.length (Js.slice0 n s) = Nat.min n (String.length s).
Proof.
  revert n; induction s as [|c s IH]; intros [|n]; simpl; try reflexivity.
  now rewrite IH.
Qed.

End StringFacts.

(** ** The matcher decides the language of a pattern *)

Module RegExpFacts.

Lemma char_matches_refl (c : ascii) : char_matches c c = true.
Proof. unfold char_matches. apply Ascii.eqb_refl. Qed.

Lemma nullable_lang (r : pattern) : nullable r = true <-> lang r "".
Proof.
  split.
  - induction r; simpl; intros H; try discriminate.
    + constructor.
    + apply andb_true_iff in H as [H1 H2].
      change "" with ("" +:+ ""). constructor; auto.
    + apply orb_true_iff in H as [H|H]; [apply lang_alt_l | apply lang_alt_r]; auto.
    + constructor.
  - intros H. remember "" as s eqn:Hs.
    induction H; simpl; try discriminate; try reflexivity.
    + apply append_empty in Hs as [-> ->]. rewrite IHlang1, IHlang2; auto.
    + rewrite IHlang; auto.
    + rewrite IHlang, orb_true_r; auto.
Qed.

(** A match of [r*] that starts with [x] starts with a match of [r] that
    starts with [x]. *)
Lemma lang_star_cons (r : pattern) (x : ascii) (s : string) :
  lang (Star r) (String x s) ->
  exists s1 s2, s = s1 +:+ s2 /\ lang r (String x s1) /\ lang (Star r) s2.
Proof.
  intros H. remember (Star r) as r' eqn:Hr. remember (String x s) as t eqn:Ht.
  revert s Ht. induction H; intros u Ht; try discriminate.
  injection Hr as ->.
  destruct s1 as [|y s1]; rewrite ?append_cons, ?append_nil_l in Ht.
  - apply IHlang2; auto.
  - injection Ht as -> <-. eauto.
Qed.

Lemma lang_cat_inv (r1 r2 : pattern) (s : string) :
  lang (Cat r1 r2) s -> exists s1 s2, s = s1 +:+ s2 /\ lang r1 s1 /\ lang r2 s2.
Proof. inversion 1; subst; eauto. Qed.

Lemma lang_alt_inv (r1 r2 : pattern) (s : string) :
  lang (Alt r1 r2) s -> lang r1 s \/ lang r2 s.
Proof. inversion 1; subst; auto. Qed.

Lemma lang_cat_cons (r1 r2 : pattern) (x : ascii) (s1 s2 : string) :
  lang r1 (String x s1) -> lang r2 s2 -> lang (Cat r1 r2) (String x (s1 +:+ s2)).
Proof. intros H1 H2. rewrite <- append_cons. now constructor. Qed.

Lemma deriv_lang (r : pattern) (x : ascii) (s : string) :
  lang (deriv x r) s <-> lang r (String x s).
Proof.
  revert s. induction r as [| |c| |r1 IH1 r2 IH2|r1 IH1 r2 IH2|r IH]; intros s; simpl.
  - split; inversion 1.
  - split; inversion 1.
  - destruct (char_matches c x) eqn:Hc; split; intros H; inversion H; subst.
    + now constructor.
    + constructor.
    + congruence.
  - destruct (Js.line_terminator x) eqn:Hc; split; intros H; inversion H; subst.
    + congruence.
    + now constructor.
    + constructor.
  - assert (Hcat : lang (Cat (deriv x r1) r2) s ->
                   lang (Cat r1 r2) (String x s)).
    { intros H. apply lang_cat_inv in H as (s1 & s2 & -> & H1 & H2).
      apply lang_cat_cons; [now apply IH1 | assumption]. }
    destruct (nullable r1) eqn:Hn; split; intros H.
    + apply lang_alt_inv in H as [H | H]; [now apply Hcat|].
      rewrite <- (append_nil_l (String x s)).
      constructor; [now apply nullable_lang | now apply IH2].
    + apply lang_cat_inv in H as (s1 & s2 & Hs & H1 & H2).
      destruct s1 as [|y s1]; rewrite ?append_cons, ?append_nil_l in Hs.
      * subst s2. apply lang_alt_r. now apply IH2.
      * injection Hs as <- ->. apply lang_alt_l.
        constructor; [now apply IH1 | assumption].
    + now apply Hcat.
    + apply lang_cat_inv in H as (s1 & s2 & Hs & H1 & H2).
      destruct s1 as [|y s1]; rewrite ?append_cons, ?append_nil_l in Hs.
      * apply nullable_lang in H1. congruence.
      * injection Hs as <- ->. constructor; [now apply IH1 | assumption].
  - split; intros H; apply lang_alt_inv in H as [H | H].
    + apply lang_alt_l. now apply IH1.
    + apply lang_alt_r. now apply IH2.
    + apply lang_alt_l. now apply IH1.
    + apply lang_alt_r. now apply IH2.
  - split; intros H.
    + apply lang_cat_inv in H as (s1 & s2 & -> & H1 & H2).
      rewrite <- append_cons. constructor; [now apply IH | assumption].
    + apply lang_star_cons in H as (s1 & s2 & -> & H1 & H2).
      constructor; [now apply IH | assumption].
Qed.

(** [match_here] finds a match that is a prefix of the string. *)
Lemma match_here_spec (r : pattern) (s : string) :
  match_here r s = true <-> exists p t, s = p +:+ t /\ lang r p.
Proof.
  revert r. induction s as [|x s IH]; intros r; simpl.
  - rewrite orb_false_r, nullable_lang. split.
    + intros H. exists "", "". auto.
    + intros (p & t & Hs & H). symmetry in Hs.
      apply append_empty in Hs as [-> _]. assumption.
  - rewrite orb_true_iff, nullable_lang, IH. split.
    + intros [H | (p & t & -> & H)].
      * exists "", (String x s). auto.
      * exists (String x p), t. split; [reflexivity | now apply deriv_lang].
    + intros (p & t & Hs & H). destruct p as [|y p]; rewrite ?append_cons, ?append_nil_l in Hs.
      * now left.
      * injection Hs as -> ->. right. exists p, t.
        split; [reflexivity | now apply deriv_lang].
Qed.

Lemma test_nil (r : pattern) : test r "" = match_here r "".
Proof. unfold test. apply orb_false_r. Qed.

Lemma test_cons (r : pattern) (x : ascii) (s : string) :
  test r (String x s) = match_here r (String x s) || test r s.
Proof. reflexivity. Qed.

(** [test] finds a match anywhere in the string. *)
Theorem test_spec (r : pattern) (s : string) :
  test r s = true <-> exists a p b, s = a +:+ p +:+ b /\ lang r p.
Proof.
  induction s as [|x s IH].
  - rewrite test_nil, match_here_spec. split.
    + intros (p & t & Hs & H). exists "", p, t. auto.
    + intros (a & p & b & Hs & H). symmetry in Hs.
      apply append_empty in Hs as [-> Hs]. apply append_empty in Hs as [-> ->].
      exists "", "". auto.
  - rewrite test_cons, orb_true_iff, IH, match_here_spec. split.
    + intros [(p & t & Hs & H) | (a & p & b & -> & H)].
      * exists "", p, t. auto.
      * exists (String x a), p, b. auto.
    + intros (a & p & b & Hs & H).
      destruct a as [|y a]; rewrite ?append_cons, ?append_nil_l in Hs.
      * left. eauto.
      * injection Hs as -> ->. right. eauto.
Qed.

(** A run of pattern characters matches itself. *)
Lemma lang_word (w : string) : lang (word w) w.
Proof.
  induction w as [|c w IH]; simpl; [constructor|].
  change (String c w) with (String c "" +:+ w).
  constructor; [|assumption]. constructor. apply char_matches_refl.
Qed.

Lemma lang_dot_star (s : string) : one_line s = true -> lang (Star Dot) s.
Proof.
  induction s as [|c s IH]; simpl; intros H; [constructor|].
  apply andb_true_iff in H as [Hc Hs].
  change (String c s) with (String c "" +:+ s).
  constructor; [|auto]. constructor. now apply negb_true_iff.
Qed.

End RegExpFacts.

(** ** The rule engine and the call analyzer in closed form *)

Section Engine.

Lemma total_app (cs ds : list contribution) : total (cs ++ ds) = total cs + total ds.
Proof. induction cs as [|c cs IH]; simpl; [reflexivity | rewrite IH; lia]. Qed.

(** The loop over the rules adds every matching rule, none left out. *)
Lemma fold_rules (name : string) (rules : list Rule) (res : AnalysisResult) :
  fold_left (apply_rule name) rules res =
  mkResult (risk res + total (rule_part rules name))
           (reasons res ++ map snd (rule_part rules name))
           (selector res) (target res).
Proof.
  revert res. induction rules as [|r rules IH]; intros res.
  - destruct res; simpl. now rewrite Z.add_0_r, app_nil_r.
  - simpl fold_left. rewrite IH. unfold apply_rule, rule_part. simpl List.filter.
    destruct (test (regex r) name); simpl; [|reflexivity].
    f_equal; [lia | now rewrite <- app_assoc].
Qed.

Lemma add_result_from (sel : string) (cs : list contribution) (w : Z) (reason : string) :
  add (result_from sel cs) w reason = result_from sel (cs ++ [(w, reason)]).
Proof.
  unfold add, result_from; simpl. rewrite total_app, map_app; simpl.
  f_equal; lia.
Qed.

Lemma value_check_from (call : QueuedCall) (sel : string) (cs : list contribution) :
  value_check call (result_from sel cs) = result_from sel (cs ++ value_part call).
Proof.
  unfold value_check, value_part. destruct (value_attached call).
  - apply add_result_from.
  - now rewrite app_nil_r.
Qed.

(** [analyzeCall], every case of it. *)
Lemma analyzeCall_closed (idx : gmap string FunctionMeta) (call : QueuedCall) :
  analyzeCall idx call =
  let sel := Js.slice0 10 (data call) in
  match get idx sel with
  | None =>
      Return (result_from sel ((10, "Unknown selector (not in ABI)") :: value_part call))
  | Some meta =>
      match prop_name meta with
      | None => TypeError
      | Some n =>
          Return (result_from sel (rule_part RULES (Js.toLowerCase n)
                                   ++ payable_part meta ++ value_part call))
      end
  end.
Proof.
  unfold analyzeCall. cbv zeta.
  generalize (Js.slice0 10 (data call)). intros sel. cbn [selector].
  destruct (get idx sel) as [meta|].
  - destruct (prop_name meta) as [n|]; [|reflexivity].
    unfold bind. f_equal. rewrite fold_rules. cbn [risk reasons selector target].
    change (mkResult (0 + total ?cs) ([] ++ map snd ?cs) sel None)
      with (result_from sel cs).
    unfold payable_part. destruct (is_payable meta).
    + rewrite add_result_from, value_check_from. now rewrite <- app_assoc.
    + rewrite value_check_from. reflexivity.
  - unfold bind. f_equal.
    change (add _ 10 _) with (result_from sel [(10, "Unknown selector (not in ABI)")]).
    now rewrite value_check_from.
Qed.

(** A selector that is neither a key of the index nor the name of a property
    of [Object.prototype] is scored as unknown. *)
Lemma unknown_selector_scored (idx : gmap string FunctionMeta) (call : QueuedCall) :
  idx !! Js.slice0 10 (data call) = None ->
  Object_prototype (Js.slice0 10 (data call)) = None ->
  analyzeCall idx call =
  Return (result_from (Js.slice0 10 (data call))
            ((10, "Unknown selector (not in ABI)") :: value_part call)).
Proof.
  intros Hown Hproto. rewrite analyzeCall_closed. cbv zeta. unfold get.
  now rewrite Hown, Hproto.
Qed.

(** No property of [Object.prototype] starts with the character [0]: the
    lookup of a hexadecimal selector only finds keys of the index. *)
Lemma Object_prototype_hex (s : string) : Object_prototype (String "0" s) = None.
Proof. reflexivity. Qed.

(** The analyzer returns a result for every selector but [__proto__]. *)
Lemma analyzeCall_returns (idx : gmap string FunctionMeta) (call : QueuedCall) :
  Js.slice0 10 (data call) <> "__proto__" ->
  exists res, analyzeCall idx call = Return res.
Proof.
  intros Hsel. rewrite analyzeCall_closed. cbv zeta. unfold get.
  destruct (idx !! Js.slice0 10 (data call)) as [m|]; [cbn; eauto|].
  unfold Object_prototype.
  destruct (String.eqb_spec (Js.slice0 10 (data call)) "__proto__") as [|_];
    [contradiction|].
  destruct (String.eqb _ "constructor"); [cbn; eauto|].
  destruct (existsb _ _); cbn; eauto.
Qed.

(** The analyzer returns a result or throws a TypeError, nothing else. *)
Lemma analyzeCall_outcomes (idx : gmap string FunctionMeta) (call : QueuedCall) :
  (exists res, analyzeCall idx call = Return res) \/ analyzeCall idx call = TypeError.
Proof.
  rewrite analyzeCall_closed. cbv zeta.
  destruct (get idx _) as [meta|]; [destruct (prop_name meta)|]; eauto.
Qed.

End Engine.

(** ** The selector index *)

Section HexFacts.

Lemma hex_digit_lower (n : N) : is_lower_hex (hex_digit n) = true.
Proof.
  destruct n as [|p]; [reflexivity|].
  do 4 (destruct p as [p|p|]; try reflexivity).
Qed.

Lemma hex_lower (bs : list Byte.byte) : string_forall is_lower_hex (hex bs) = true.
Proof.
  induction bs as [|b bs IH]; simpl; [reflexivity|].
  now rewrite !hex_digit_lower, IH.
Qed.

Lemma length_hex (bs : list Byte.byte) : String.length (hex bs) = (2 * length bs)%nat.
Proof. induction bs as [|b bs IH]; simpl; [reflexivity | rewrite IH; lia]. Qed.

Lemma slice0_forall (p : ascii -> bool) (n : nat) (s : string) :
  string_forall p s = true -> string_forall p (Js.slice0 n s) = true.
Proof.
  revert n; induction s as [|c s IH]; intros [|n] H; simpl in *; try reflexivity.
  apply andb_true_iff in H as [-> H]. now apply IH.
Qed.

End HexFacts.

Section IndexFacts.

Variable createHash : string -> Outcome Hash.

Lemma index_entry_skip (idx : gmap string FunctionMeta) (f : AbiEntry) :
  is_function f = false -> index_entry createHash idx f = Return idx.
Proof. unfold is_function, index_entry. now intros ->. Qed.

(** The entries that are no functions do not count. *)
Lemma index_entries_filter (abi : list AbiEntry) (idx : gmap string FunctionMeta) :
  index_entries createHash abi idx
  = index_entries createHash (List.filter is_function abi) idx.
Proof.
  revert idx. induction abi as [|f abi IH]; intros idx; [reflexivity|].
  cbn [index_entries List.filter]. destruct (is_function f) eqn:Hf.
  - cbn [index_entries].
    destruct (index_entry createHash idx f) as [idx'| | |]; cbn [bind];
      [apply IH | reflexivity..].
  - rewrite index_entry_skip by assumption. cbn [bind]. apply IH.
Qed.

Lemma index_entries_no_function (abi : list AbiEntry) (idx : gmap string FunctionMeta) :
  has_function abi = false -> index_entries createHash abi idx = Return idx.
Proof.
  unfold has_function. induction abi as [|f abi IH]; [reflexivity|].
  cbn [existsb]. intros H. apply orb_false_iff in H as [Hf H].
  cbn [index_entries]. rewrite index_entry_skip by assumption. cbn [bind]. now apply IH.
Qed.

(** Where the library has no digest of the name, the first function of the
    description ends the loop, and nothing is ever stored. *)
Lemma index_entries_unsupported (abi : list AbiEntry) (idx : gmap string FunctionMeta) :
  createHash "keccak256" = DigestNotSupported ->
  index_entries createHash abi idx
  = if has_function abi then DigestNotSupported else Return idx.
Proof.
  intros Hno. unfold has_function. induction abi as [|f abi IH]; [reflexivity|].
  cbn [index_entries existsb]. destruct (is_function f) eqn:Hf; cbn [orb].
  - unfold index_entry, selector_of. unfold is_function in Hf. rewrite Hf, Hno.
    reflexivity.
  - rewrite index_entry_skip by assumption. cbn [bind]. exact IH.
Qed.

(** Every key of a returned index was there before or is the [0x] and the
    eight digits of a digest the library gave. *)
Lemma index_entries_keys (abi : list AbiEntry) (idx0 idx : gmap string FunctionMeta)
    (k : string) :
  index_entries createHash abi idx0 = Return idx ->
  is_Some (idx !! k) ->
  is_Some (idx0 !! k) \/
  exists hash sig, createHash "keccak256" = Return hash /\
                   k = "0x" +:+ Js.slice0 8 (hex (hash sig)).
Proof.
  revert idx0. induction abi as [|f abi IH]; intros idx0 Hret Hk.
  - injection Hret as <-. now left.
  - cbn [index_entries] in Hret.
    destruct (index_entry createHash idx0 f) as [idx1| | |] eqn:Hf; try discriminate.
    cbn [bind] in Hret. destruct (IH idx1 Hret Hk) as [H1|H1]; [|now right].
    unfold index_entry in Hf.
    destruct (negb (String.eqb (abi_type f) "function")).
    { injection Hf as <-. now left. }
    unfold selector_of in Hf.
    destruct (createHash "keccak256") as [hash| | |] eqn:Hh; try discriminate.
    cbn [bind] in Hf. injection Hf as <-.
    destruct (decide ("0x" +:+ Js.slice0 8 (hex (hash (signature f))) = k)) as [Heq|Hne].
    + right. exists hash, (signature f). now split.
    + rewrite lookup_insert_ne in H1 by assumption. now left.
Qed.

(** A key starts with [0x], whatever the digest: it is not a property of
    [Object.prototype]. *)
Lemma build_keys_0x (abi : list AbiEntry) (idx : gmap string FunctionMeta) (k : string) :
  buildSelectorIndex createHash abi = Return idx ->
  is_Some (idx !! k) -> exists h, k = "0x" +:+ h.
Proof.
  intros Hret Hk. destruct (index_entries_keys _ _ _ _ Hret Hk) as [H|(hash & sig & _ & ->)].
  - rewrite lookup_empty in H. now destruct H.
  - eauto.
Qed.

Lemma build_lookup_not_0x (abi : list AbiEntry) (idx : gmap string FunctionMeta)
    (c : ascii) (k : string) :
  buildSelectorIndex createHash abi = Return idx ->
  c <> "0"%char -> idx !! String c k = None.
Proof.
  intros Hret Hc. apply eq_None_not_Some. intros H.
  apply (build_keys_0x _ _ _ Hret) in H as (h & H). injection H as H _. contradiction.
Qed.

(** The eight digits of a digest of 32 bytes. *)
Lemma digest_key_well_formed (bs : list Byte.byte) :
  length bs = 32%nat -> well_formed_key ("0x" +:+ Js.slice0 8 (hex bs)).
Proof.
  intros Hlen.
  assert (H8 : String.length (Js.slice0 8 (hex bs)) = 8%nat)
    by (rewrite length_slice0, length_hex, Hlen; reflexivity).
  split.
  - rewrite length_append, H8. reflexivity.
  - eexists; split; [reflexivity|]. split; [exact H8|]. apply slice0_forall, hex_lower.
Qed.

End IndexFacts.

(** ** Numbers: the average and its two fraction digits *)

Module NumberFacts.
Import Number.

Lemma scaled_nonneg (p q e : Z) : 0 <= e -> scaled p q e = (p, q * 2 ^ e).
Proof. intros H. unfold scaled. now rewrite (proj2 (Z.leb_le 0 e) H). Qed.

Lemma scaled_neg (p q e : Z) : e < 0 -> scaled p q e = (p * 2 ^ (- e), q).
Proof. intros H. unfold scaled. now rewrite (proj2 (Z.leb_gt 0 e) H). Qed.

Lemma pow2_pos (e : Z) : 0 <= e -> 0 < 2 ^ e.
Proof. intros. apply Z.pow_pos_nonneg; lia. Qed.

Lemma pow2_split (a b : Z) : 0 <= a -> 0 <= b -> 2 ^ (a + b) = 2 ^ a * 2 ^ b.
Proof. intros. apply Z.pow_add_r; assumption. Qed.

(** [floor_log2 p q] is the exponent of the leading bit of [p / q]. *)
Lemma floor_log2_bracket (p q : Z) :
  0 < p -> 0 < q ->
  let '(n, m) := scaled p q (floor_log2 p q) in m <= n < 2 * m.
Proof.
  intros Hp Hq. unfold floor_log2.
  destruct (Z.log2_spec p Hp) as [Ha1 Ha2]. destruct (Z.log2_spec q Hq) as [Hb1 Hb2].
  pose proof (Z.log2_nonneg p) as Ha0. pose proof (Z.log2_nonneg q) as Hb0.
  set (a := Z.log2 p) in *. set (b := Z.log2 q) in *.
  replace (Z.succ a) with (a + 1) in Ha2 by lia.
  replace (Z.succ b) with (b + 1) in Hb2 by lia.
  rewrite pow2_split in Ha2, Hb2 by lia. change (2 ^ 1) with 2 in *.
  pose proof (pow2_pos a Ha0) as HA. pose proof (pow2_pos b Hb0) as HB.
  destruct (Z_lt_le_dec (a - b) 0) as [Hd|Hd].
  - rewrite (scaled_neg p q (a - b)) by lia.
    assert (Hab : 2 ^ b = 2 ^ a * 2 ^ (- (a - b))).
    { rewrite <- pow2_split by lia. f_equal; lia. }
    pose proof (pow2_pos (- (a - b))) as HD.
    destruct (q <=? p * 2 ^ (- (a - b))) eqn:Hc.
    + apply Z.leb_le in Hc. rewrite scaled_neg by lia. nia.
    + apply Z.leb_gt in Hc. rewrite scaled_neg by lia.
      replace (- (a - b - 1)) with (- (a - b) + 1) by lia.
      rewrite pow2_split by lia. change (2 ^ 1) with 2. nia.
  - rewrite (scaled_nonneg p q (a - b)) by lia.
    assert (Hab : 2 ^ a = 2 ^ b * 2 ^ (a - b)).
    { rewrite <- pow2_split by lia. f_equal; lia. }
    pose proof (pow2_pos (a - b)) as HD.
    destruct (q * 2 ^ (a - b) <=? p) eqn:Hc.
    + apply Z.leb_le in Hc. rewrite scaled_nonneg by lia. nia.
    + apply Z.leb_gt in Hc.
      destruct (Z.eq_dec (a - b) 0) as [H0|H0].
      * rewrite H0 in *. change (2 ^ 0) with 1 in *.
        rewrite scaled_neg by lia. change (2 ^ (- (0 - 1))) with 2. nia.
      * rewrite scaled_nonneg by lia.
        assert (Hd1 : 2 ^ (a - b) = 2 * 2 ^ (a - b - 1)).
        { change 2 with (2 ^ 1) at 2. rewrite <- pow2_split by lia. f_equal; lia. }
        pose proof (pow2_pos (a - b - 1)). nia.
Qed.

(** [nearest_even] is within half a unit of the quotient. *)
Lemma nearest_even_close (p q e : Z) :
  let '(n, m) := scaled p q e in
  0 < m -> 2 * Z.abs (nearest_even p q e * m - n) <= m.
Proof.
  unfold nearest_even. destruct (scaled p q e) as [n m]. intros Hm.
  pose proof (Z.div_mod n m ltac:(lia)) as Hdiv.
  pose proof (Z.mod_pos_bound n m Hm) as Hr.
  destruct ((m <? 2 * (n mod m)) || ((m =? 2 * (n mod m)) && Z.odd (n / m))) eqn:Hc.
  - assert (m <= 2 * (n mod m)).
    { apply orb_true_iff in Hc as [Hc|Hc]; [apply Z.ltb_lt in Hc; lia|].
      apply andb_true_iff in Hc as [Hc _]. apply Z.eqb_eq in Hc. lia. }
    nia.
  - apply orb_false_iff in Hc as [Hc _]. apply Z.ltb_ge in Hc. nia.
Qed.

(** Between [m] and [2 m] times [2^52], the rounded quotient has 53 bits, or
    is [2^53]. *)
Lemma nearest_even_range (n m : Z) (k : Z) :
  0 < m -> m * 2 ^ 52 <= n < m * 2 ^ 53 ->
  2 * Z.abs (k * m - n) <= m -> 2 ^ 52 <= k <= 2 ^ 53.
Proof. intros Hm Hn Hk. nia. Qed.

(** An integer below [2^53] is a number, exactly. *)
Lemma of_Z_exact (t : Z) :
  0 < t < 2 ^ 53 ->
  exists m E, of_Z t = S754_finite false m (- E) /\ 0 <= E /\ Z.pos m = t * 2 ^ E.
Proof.
  intros Ht. unfold of_Z.
  rewrite (proj2 (Z.eqb_neq t 0)) by lia. rewrite (proj2 (Z.ltb_ge t 0)) by lia.
  rewrite Z.abs_eq by lia. unfold round.
  pose proof (floor_log2_bracket t 1 ltac:(lia) ltac:(lia)) as Hb.
  set (L := floor_log2 t 1) in *.
  assert (HL0 : 0 <= L).
  { destruct (Z_lt_le_dec L 0) as [Hneg|]; [|assumption].
    rewrite scaled_neg in Hb by assumption.
    assert (2 ^ 1 <= 2 ^ (- L)) by (apply Z.pow_le_mono_r; lia).
    change (2 ^ 1) with 2 in *. nia. }
  rewrite scaled_nonneg in Hb by assumption.
  assert (HL : L <= 52).
  { destruct (Z_lt_le_dec 52 L) as [Hbig|]; [|lia].
    assert (2 ^ 53 <= 2 ^ L) by (apply Z.pow_le_mono_r; lia). lia. }
  rewrite Z.max_l by lia.
  set (E := 52 - L).
  assert (HE : 2 ^ 52 = 2 ^ L * 2 ^ E).
  { rewrite <- pow2_split by lia. f_equal; lia. }
  pose proof (pow2_pos L HL0) as HpL. pose proof (pow2_pos E ltac:(lia)) as HpE.
  assert (Hk : nearest_even t 1 (L - 52) = t * 2 ^ E).
  { unfold nearest_even.
    destruct (Z.eq_dec L 52) as [Heq|Hne].
    - rewrite scaled_nonneg by lia.
      replace (L - 52) with 0 by lia. replace E with 0 by (unfold E; lia).
      change (2 ^ 0) with 1. rewrite !Z.mul_1_r, Z.div_1_r, Z.mod_1_r. reflexivity.
    - rewrite scaled_neg by lia. replace (- (L - 52)) with E by lia.
      rewrite Z.div_1_r, Z.mod_1_r. reflexivity. }
  rewrite Hk.
  assert (Hrange : 2 ^ 52 <= t * 2 ^ E < 2 ^ 53).
  { change (2 ^ 53) with (2 * 2 ^ 52). nia. }
  rewrite (proj2 (Z.eqb_neq _ 0)) by lia.
  assert (Hlog : Z.log2 (t * 2 ^ E) = 52).
  { apply Z.log2_unique; [lia|]. exact Hrange. }
  rewrite Hlog. rewrite (proj2 (Z.ltb_ge 1024 _)) by lia.
  rewrite (proj2 (Z.eqb_neq _ (2 ^ 53))) by lia.
  exists (Z.to_pos (t * 2 ^ E)), E. split; [f_equal; lia|].
  split; [lia|]. rewrite Z2Pos.id by lia. reflexivity.
Qed.

(** The quotient of two integers below [2^53] is the rounding of their
    ratio. *)
Lemma div_of_Z (t l : Z) :
  0 < t < 2 ^ 53 -> 0 < l < 2 ^ 53 ->
  exists n d, div (of_Z t) (of_Z l) = round false n d /\
              0 < n /\ 0 < d /\ n * l = t * d.
Proof.
  intros Ht Hl.
  destruct (of_Z_exact t Ht) as (m1 & E1 & -> & HE1 & Hm1).
  destruct (of_Z_exact l Hl) as (m2 & E2 & -> & HE2 & Hm2).
  unfold div. cbn [sign xorb]. rewrite Hm1, Hm2.
  pose proof (pow2_pos E1 HE1). pose proof (pow2_pos E2 HE2).
  destruct (Z_lt_le_dec (- E2 - - E1) 0) as [Hs|Hs].
  - rewrite scaled_neg by assumption.
    replace (- (- E2 - - E1)) with (E2 - E1) by lia.
    eexists _, _. split; [reflexivity|].
    pose proof (pow2_pos (E2 - E1) ltac:(lia)).
    assert (2 ^ E2 = 2 ^ E1 * 2 ^ (E2 - E1)).
    { rewrite <- pow2_split by lia. f_equal; lia. }
    nia.
  - rewrite scaled_nonneg by assumption.
    replace (- E2 - - E1) with (E1 - E2) by lia.
    eexists _, _. split; [reflexivity|].
    pose proof (pow2_pos (E1 - E2) ltac:(lia)).
    assert (2 ^ E1 = 2 ^ E2 * 2 ^ (E1 - E2)).
    { rewrite <- pow2_split by lia. f_equal; lia. }
    nia.
Qed.

(** Rounding to the hundredth after rounding to 53 bits is rounding to the
    hundredth, when the hundredths are far apart against the last bit. *)
Lemma hundredth_nearest (t l k P r : Z) :
  0 < l -> 0 < P -> 100 * l < P ->
  2 * Z.abs (k * l - t * P) <= l ->
  2 * P * r <= 200 * k + P < 2 * P * (r + 1) ->
  (2 * r - 1) * l <= 200 * t <= (2 * r + 1) * l.
Proof.
  intros Hl HP Hfar Hk Hr. split.
  - destruct (Z_le_gt_dec ((2 * r - 1) * l) (200 * t)) as [|Hc]; [assumption|].
    exfalso. assert (200 * t * P + P <= (2 * r - 1) * l * P) by nia. nia.
  - destruct (Z_le_gt_dec (200 * t) ((2 * r + 1) * l)) as [|Hc]; [assumption|].
    exfalso. assert ((2 * r + 1) * l * P + P <= 200 * t * P) by nia. nia.
Qed.

(** [toFixed(2)] of the rounded ratio [t / l], for a total below [2^45] and
    fewer than [2^32] results: the hundredths nearest to [t / l], on two
    fraction digits. *)
Lemma toFixed2_round (n d t l : Z) :
  0 < n -> 0 < d -> n * l = t * d ->
  0 < t < 2 ^ 45 -> 0 < l < 2 ^ 32 ->
  exists r, toFixed2 (round false n d) = Some (fixed2 r) /\
            0 <= r /\ (2 * r - 1) * l <= 200 * t <= (2 * r + 1) * l.
Proof.
  intros Hn Hd Hratio Ht Hl. unfold round.
  pose proof (floor_log2_bracket n d Hn Hd) as Hb.
  set (L := floor_log2 n d) in *.
  assert (HL : -32 <= L <= 44).
  { split.
    - destruct (Z_lt_le_dec L (-32)) as [Hlow|]; [|assumption]. exfalso.
      rewrite scaled_neg in Hb by lia.
      assert (2 ^ 33 <= 2 ^ (- L)) by (apply Z.pow_le_mono_r; lia).
      assert (n * 2 ^ 33 < 2 * d) by nia.
      assert (n * l * 2 ^ 33 < 2 * d * l) by nia.
      rewrite Hratio in *. change (2 ^ 33) with (2 * 2 ^ 32) in *. nia.
    - destruct (Z_lt_le_dec 44 L) as [Hhigh|]; [|lia]. exfalso.
      rewrite scaled_nonneg in Hb by lia.
      assert (2 ^ 45 <= 2 ^ L) by (apply Z.pow_le_mono_r; lia).
      assert (d * 2 ^ 45 * l <= n * l) by nia.
      rewrite Hratio in *. nia. }
  rewrite Z.max_l by lia.
  set (E := 52 - L).
  pose proof (pow2_pos E ltac:(lia)) as HP.
  pose proof (nearest_even_close n d (L - 52)) as Hk.
  rewrite scaled_neg in Hk by lia. replace (- (L - 52)) with E in Hk by lia.
  specialize (Hk Hd).
  set (k := nearest_even n d (L - 52)) in *.
  assert (Hrange : d * 2 ^ 52 <= n * 2 ^ E < d * 2 ^ 53).
  { change (2 ^ 53) with (2 * 2 ^ 52).
    destruct (Z_lt_le_dec L 0) as [Hneg|Hpos].
    - rewrite scaled_neg in Hb by assumption.
      assert (2 ^ E = 2 ^ (- L) * 2 ^ 52).
      { rewrite <- pow2_split by lia. f_equal; lia. }
      nia.
    - rewrite scaled_nonneg in Hb by assumption.
      assert (2 ^ 52 = 2 ^ L * 2 ^ E).
      { rewrite <- pow2_split by lia. f_equal; lia. }
      pose proof (pow2_pos L Hpos). nia. }
  pose proof (nearest_even_range _ _ k Hd Hrange Hk) as Hkr.
  assert (Hclose : 2 * Z.abs (k * l - t * 2 ^ E) <= l).
  { assert (2 * Z.abs (k * d * l - n * l * 2 ^ E) <= d * l) by nia.
    rewrite Hratio in *. nia. }
  assert (Hfar : 100 * l < 2 ^ E).
  { assert (d * l * 2 ^ 52 <= n * l * 2 ^ E) by nia.
    rewrite Hratio in *. change (2 ^ 52) with (2 ^ 45 * 128) in *. nia. }
  rewrite (proj2 (Z.eqb_neq k 0)) by lia.
  assert (Hlog : Z.log2 k <= 53).
  { change 53 with (Z.log2 (2 ^ 53)). apply Z.log2_le_mono. lia. }
  rewrite (proj2 (Z.ltb_ge 1024 _)) by lia.
  destruct (Z.eqb_spec k (2 ^ 53)) as [Hk53|Hk53].
  - (* the mantissa carried over: 2^52 with the exponent one up *)
    unfold toFixed2, nearest_hundredth.
    replace (- (L - 52 + 1)) with (E - 1) by lia.
    rewrite !scaled_nonneg by lia.
    pose proof (pow2_pos (E - 1) ltac:(lia)) as HP1.
    assert (HE1 : 2 ^ E = 2 * 2 ^ (E - 1)).
    { change 2 with (2 ^ 1) at 2. rewrite <- pow2_split by lia. f_equal; lia. }
    rewrite Z2Pos.id by lia.
    rewrite (proj2 (Z.leb_gt _ _)) by (change (2 ^ 52) with 4503599627370496; lia).
    eexists; split; [reflexivity|].
    set (r := (2 * (100 * 2 ^ 52) + 1 * 2 ^ (E - 1)) / (2 * (1 * 2 ^ (E - 1)))).
    pose proof (Z.div_mod (2 * (100 * 2 ^ 52) + 1 * 2 ^ (E - 1))
                  (2 * (1 * 2 ^ (E - 1))) ltac:(lia)) as Hdm.
    pose proof (Z.mod_pos_bound (2 * (100 * 2 ^ 52) + 1 * 2 ^ (E - 1))
                  (2 * (1 * 2 ^ (E - 1))) ltac:(lia)) as Hmod.
    fold r in Hdm.
    assert (Hr0 : 0 <= r) by (apply Z.div_pos; lia).
    split; [assumption|].
    apply (hundredth_nearest t l k (2 ^ E) r); try assumption; lia.
  - unfold toFixed2, nearest_hundredth.
    replace (- (L - 52)) with E by lia.
    rewrite !scaled_nonneg by lia.
    rewrite Z2Pos.id by lia.
    rewrite (proj2 (Z.leb_gt _ _)) by (change (2 ^ 53) with 9007199254740992 in *; lia).
    eexists; split; [reflexivity|].
    set (r := (2 * (100 * k) + 1 * 2 ^ E) / (2 * (1 * 2 ^ E))).
    pose proof (Z.div_mod (2 * (100 * k) + 1 * 2 ^ E) (2 * (1 * 2 ^ E)) ltac:(lia)) as Hdm.
    pose proof (Z.mod_pos_bound (2 * (100 * k) + 1 * 2 ^ E) (2 * (1 * 2 ^ E)) ltac:(lia)) as Hmod.
    fold r in Hdm.
    assert (Hr0 : 0 <= r) by (apply Z.div_pos; lia).
    split; [assumption|].
    apply (hundredth_nearest t l k (2 ^ E) r); try assumption; lia.
Qed.

(** The average the report prints. *)
Lemma toFixed2_average (t l : Z) :
  0 <= t < 2 ^ 45 -> 0 < l < 2 ^ 32 ->
  exists r, toFixed2 (div (of_Z t) (of_Z l)) = Some (fixed2 r) /\
            0 <= r /\ (2 * r - 1) * l <= 200 * t <= (2 * r + 1) * l.
Proof.
  intros Ht Hl. destruct (Z.eq_dec t 0) as [->|Hne].
  - exists 0. split; [|lia].
    destruct (of_Z_exact l) as (m & E & -> & _); [lia|]. reflexivity.
  - destruct (div_of_Z t l) as (n & d & -> & Hn & Hd & Hratio); [lia|lia|].
    apply (toFixed2_round n d t l); try assumption; lia.
Qed.

End NumberFacts.

(** ** Reading the digits of the average *)

Section FixedFacts.

Lemma digits_to_Z_app (u v : string) (a : Z) :
  digits_to_Z a (u +:+ v) = digits_to_Z (digits_to_Z a u) v.
Proof.
  revert a. induction u as [|c u IH]; intros a; [reflexivity|].
  rewrite append_cons. cbn [digits_to_Z]. apply IH.
Qed.

Lemma string_forall_app (p : ascii -> bool) (u v : string) :
  string_forall p (u +:+ v) = string_forall p u && string_forall p v.
Proof.
  induction u as [|c u IH]; [reflexivity|].
  rewrite append_cons. cbn [string_forall]. now rewrite IH, andb_assoc.
Qed.

(** The digits are put in front of what is already there. *)
Lemma pretty_N_go_app (x : N) (s : string) : pretty_N_go x s = pretty_N_go x "" +:+ s.
Proof.
  revert s. induction (N.lt_wf_0 x) as [x _ IH]; intros s.
  destruct (N.eq_dec x 0%N) as [->|Hx]; [now rewrite !pretty_N_go_0|].
  rewrite !(pretty_N_go_step x) by lia.
  assert (Hlt : (x / 10 < x)%N) by (apply N.div_lt; lia).
  rewrite (IH _ Hlt (String _ s)), (IH _ Hlt (String _ "")).
  now rewrite append_assoc.
Qed.

Lemma pretty_N_char_digit (d : N) :
  (d < 10)%N ->
  is_digit (pretty_N_char d) = true /\
  Z.of_N (N_of_ascii (pretty_N_char d)) - 48 = Z.of_N d /\
  (d <> 0%N -> pretty_N_char d <> "0"%char).
Proof.
  intros H.
  assert (H' : (d = 0 \/ d = 1 \/ d = 2 \/ d = 3 \/ d = 4 \/ d = 5 \/ d = 6 \/
               d = 7 \/ d = 8 \/ d = 9)%N) by lia.
  repeat destruct H' as [->|H']; try subst d;
    (split; [reflexivity|]; split; [reflexivity|]; intros Hd; try discriminate;
     now destruct Hd).
Qed.

(** What [pretty] prints are the decimal digits of the number. *)
Lemma pretty_N_go_digits (x : N) :
  string_forall is_digit (pretty_N_go x "") = true /\
  digits_to_Z 0 (pretty_N_go x "") = Z.of_N x.
Proof.
  induction (N.lt_wf_0 x) as [x _ IH].
  destruct (N.eq_dec x 0%N) as [->|Hx]; [split; reflexivity|].
  rewrite pretty_N_go_step by lia. rewrite pretty_N_go_app.
  destruct (IH (x / 10)%N) as [IH1 IH2]; [apply N.div_lt; lia|].
  destruct (pretty_N_char_digit (x mod 10)%N) as (Hd & Hv & _); [apply N.mod_lt; lia|].
  split.
  - rewrite string_forall_app, IH1. cbn [string_forall]. now rewrite Hd.
  - rewrite digits_to_Z_app, IH2. cbn [digits_to_Z]. rewrite Hv.
    rewrite (N.div_mod x 10%N) at 3 by lia. lia.
Qed.

(** No needless zero in front. *)
Lemma pretty_N_go_leading (x : N) (s : string) :
  (0 < x)%N -> exists c r, pretty_N_go x s = String c r /\ c <> "0"%char.
Proof.
  revert s. induction (N.lt_wf_0 x) as [x _ IH]; intros s Hx.
  rewrite pretty_N_go_step by assumption.
  destruct (N.eq_dec (x / 10)%N 0%N) as [Hq|Hq].
  - rewrite Hq, pretty_N_go_0. eexists _, _; split; [reflexivity|].
    assert (Hlt : (x < 10)%N).
    { assert (H10 : (10 <> 0)%N) by discriminate.
      pose proof (N.div_mod x 10%N H10) as Hdm.
      pose proof (N.mod_lt x 10%N H10). rewrite Hq in Hdm. lia. }
    rewrite N.mod_small by assumption.
    apply pretty_N_char_digit; lia.
  - apply IH; [apply N.div_lt; lia | now apply N.neq_0_lt_0].
Qed.

Lemma pretty_Z_digits (z : Z) :
  0 <= z ->
  string_forall is_digit (pretty z) = true /\
  digits_to_Z 0 (pretty z) = z /\
  (pretty z = "0" \/ exists c r, pretty z = String c r /\ c <> "0"%char).
Proof.
  intros Hz. destruct z as [|p|p]; [| |lia].
  - split; [reflexivity|]. split; [reflexivity | now left].
  - assert (Hp : pretty (Z.pos p) = pretty_N_go (N.pos p) "").
    { unfold pretty, pretty_Z, pretty, pretty_positive, pretty, pretty_N.
      destruct (decide (N.pos p = 0%N)); [discriminate | reflexivity]. }
    rewrite Hp. destruct (pretty_N_go_digits (N.pos p)) as [H1 H2].
    split; [exact H1|]. split; [rewrite H2; reflexivity|].
    right. apply pretty_N_go_leading. lia.
Qed.

(** [fixed2] prints two fraction digits. *)
Lemma fixed2_two_fraction_digits (n : Z) : 0 <= n -> two_fraction_digits (fixed2 n) n.
Proof.
  intros Hn. unfold fixed2.
  exists (pretty (n / 100)),
         (String (digit_char (n / 10 mod 10)) (String (digit_char (n mod 10)) EmptyString)).
  destruct (pretty_Z_digits (n / 100)) as (Hd & Hv & Hl); [apply Z.div_pos; lia|].
  assert (Hr1 : 0 <= n / 10 mod 10 < 10) by (apply Z.mod_pos_bound; lia).
  assert (Hr2 : 0 <= n mod 10 < 10) by (apply Z.mod_pos_bound; lia).
  destruct (pretty_N_char_digit (Z.to_N (n / 10 mod 10))) as (H1d & H1v & _); [lia|].
  destruct (pretty_N_char_digit (Z.to_N (n mod 10))) as (H2d & H2v & _); [lia|].
  rewrite Z2N.id in H1v, H2v by lia.
  split; [reflexivity|]. split; [reflexivity|]. split; [|split; [exact Hl|]].
  - rewrite string_forall_app, Hd. cbn [string_forall]. unfold digit_char.
    now rewrite H1d, H2d.
  - rewrite digits_to_Z_app, Hv. cbn [digits_to_Z]. unfold digit_char.
    rewrite H1v, H2v.
    assert (Hq : n / 100 = n / 10 / 10) by (rewrite Z.div_div by lia; reflexivity).
    rewrite Hq. pose proof (Z.div_mod (n / 10) 10). pose proof (Z.div_mod n 10). lia.
Qed.

End FixedFacts.

(** ** The report *)

Section ReportFacts.

Lemma total_risk_from (results : list AnalysisResult) (a : Z) :
  fold_left (fun a b => a + risk b) results a = a + sum_risks results.
Proof.
  revert a. induction results as [|r rs IH]; intros a; simpl; [lia|].
  rewrite IH. lia.
Qed.

Lemma total_risk_sum (results : list AnalysisResult) :
  total_risk results = sum_risks results.
Proof. unfold total_risk. now rewrite total_risk_from. Qed.

(** The rules weigh 110 together. *)
Lemma rule_part_bound (n : string) : 0 <= total (rule_part RULES n) <= 110.
Proof.
  unfold rule_part, RULES. simpl List.filter. cbn [regex].
  repeat match goal with |- context [if test ?r n then _ else _] =>
    destruct (test r n) end; simpl; lia.
Qed.

(** No call weighs more than 120. *)
Lemma analyzeCall_risk_bound (idx : gmap string FunctionMeta) (c : QueuedCall)
    (r : AnalysisResult) :
  analyzeCall idx c = Return r -> 0 <= risk r <= 120.
Proof.
  rewrite analyzeCall_closed. cbv zeta.
  assert (Hv : 0 <= total (value_part c) <= 5)
    by (unfold value_part; destruct (value_attached c); simpl; lia).
  destruct (get idx (Js.slice0 10 (data c))) as [meta|].
  - destruct (prop_name meta) as [n|]; [|discriminate].
    intros [= <-]. unfold result_from. cbn [risk]. rewrite !total_app.
    pose proof (rule_part_bound (Js.toLowerCase n)).
    assert (0 <= total (payable_part meta) <= 5)
      by (unfold payable_part; destruct (is_payable meta); simpl; lia).
    lia.
  - intros [= <-]. unfold result_from. cbn [risk].
    change (total ((10, ?s) :: ?cs)) with (10 + total cs). lia.
Qed.

Lemma sum_risks_bound (idx : gmap string FunctionMeta) (calls : list QueuedCall)
    (results : list AnalysisResult) :
  Forall2 (result_of_call idx) calls results ->
  0 <= sum_risks results <= 120 * Z.of_nat (length results).
Proof.
  induction 1 as [|c r calls results (r0 & Hr0 & ->) _ IH]; [simpl; lia|].
  apply analyzeCall_risk_bound in Hr0.
  cbn [sum_risks fold_right length set_target risk]. fold (sum_risks results). lia.
Qed.

(** The loop pushes the result of every call, in the order of the calls. *)
Lemma analyze_all_results (idx : gmap string FunctionMeta) (calls : list QueuedCall)
    (results acc : list AnalysisResult) :
  Forall2 (result_of_call idx) calls results ->
  analyze_all idx calls acc = Return (acc ++ results).
Proof.
  intros H. revert acc.
  induction H as [|c r calls results (r0 & Hr0 & ->) _ IH]; intros acc; simpl.
  - now rewrite app_nil_r.
  - rewrite Hr0. simpl. rewrite IH, <- app_assoc. reflexivity.
Qed.

(** A call that throws leaves no report. *)
Lemma analyze_all_throws (idx : gmap string FunctionMeta) (calls : list QueuedCall)
    (acc : list AnalysisResult) :
  Exists (fun c => analyzeCall idx c = TypeError) calls ->
  (forall B (k : list AnalysisResult -> Outcome B),
      bind (analyze_all idx calls acc) k = TypeError).
Proof.
  intros H B k. revert acc. induction calls as [|c calls IH]; intros acc.
  - inversion H.
  - simpl. destruct (analyzeCall_outcomes idx c) as [(r & Hc)|Hc]; rewrite Hc; simpl.
    + apply IH. inversion H; subst; [congruence | assumption].
    + reflexivity.
Qed.

Lemma report_of_results (results : list AnalysisResult) :
  0 <= sum_risks results <= 120 * Z.of_nat (length results) ->
  Z.of_nat (length results) < 2 ^ 32 ->
  exists avg n, report_of results = Return (mkReport avg results) /\
    (results = [] -> avg = "0.00") /\
    avg = fixed2 n /\ 0 <= n /\
    (2 * n - 1) * Z.of_nat (length results) <= 200 * sum_risks results
      <= (2 * n + 1) * Z.of_nat (length results).
Proof.
  intros Hsum Hlen. unfold report_of. rewrite total_risk_sum.
  destruct results as [|r rs].
  - exists "0.00", 0. simpl. repeat split; lia.
  - set (l := Z.of_nat (length (r :: rs))) in *.
    assert (Hl : 0 < l < 2 ^ 32) by (split; [unfold l; simpl length; lia | assumption]).
    rewrite (proj2 (Z.eqb_neq l 0)) by lia. cbn [negb].
    destruct (NumberFacts.toFixed2_average (sum_risks (r :: rs)) l) as (n & -> & Hn & Hnear);
      [change (2 ^ 45) with (8192 * 2 ^ 32); lia | assumption |].
    exists (fixed2 n), n. cbn [bind].
    split; [reflexivity|]. split; [discriminate|]. split; [reflexivity|].
    split; assumption.
Qed.

End ReportFacts.

(** The division agrees with the Standard Library's [SFdiv] at binary64 on
    small integers. *)
Lemma div_agrees_with_SFdiv :
  forallb (fun '(a, b) =>
             match Number.div (Number.of_Z a) (Number.of_Z b),
                   SFdiv 53 1024 (binary_normalize 53 1024 a 0 false)
                                 (binary_normalize 53 1024 b 0 false) with
             | S754_zero s, S754_zero s' => Bool.eqb s s'
             | S754_finite s m e, S754_finite s' m' e' =>
                 Bool.eqb s s' && (m =? m')%positive && (e =? e')
             | _, _ => false
             end)
          (list_prod (map Z.of_nat (seq 0 121)) (map Z.of_nat (seq 1 64))) = true.
Proof. vm_compute. reflexivity. Qed.

Lemma sample_digest_length (s : string) : length (sample_digest s) = 32%nat.
Proof.
  unfold sample_digest. rewrite length_firstn, length_app, repeat_length. lia.
Qed.

(** ** The claims *)

Section Claims.

Variable createHash : string -> Outcome Hash.

(** C9 (what the code does): the data [__proto__] makes the lookup return
    [Object.prototype], whose [name] is undefined; whatever the interface
    description the index was built from, [analyzeCall] throws a TypeError
    instead of scoring an unknown selector. *)
Theorem analyzeCall_proto_throws (abi : list AbiEntry) (idx : gmap string FunctionMeta)
    (t : string) (v : JsValue) :
  buildSelectorIndex createHash abi = Return idx ->
  analyzeCall idx (mkCall t "__proto__" v) = TypeError.
Proof.
  intros Hidx. rewrite analyzeCall_closed. cbv zeta. unfold get.
  change (Js.slice0 10 (data (mkCall t "__proto__" v))) with "__proto__".
  rewrite (build_lookup_not_0x _ _ _ _ _ Hidx) by discriminate. reflexivity.
Qed.

(** C3 (what the code does): the selector [toString] is no key of the index,
    whatever the interface description it was built from, yet the lookup
    finds the method inherited from [Object.prototype]: the rules run on its
    name and the call gets risk 0 and no reason, not the unknown-selector
    penalty. *)
Theorem analyzeCall_inherited_selector (abi : list AbiEntry)
    (idx : gmap string FunctionMeta) (t : string) :
  buildSelectorIndex createHash abi = Return idx ->
  idx !! "toString" = None /\
  analyzeCall idx (mkCall t "toString" Undefined)
  = Return (mkResult 0 [] "toString" None).
Proof.
  intros Hidx.
  assert (H : idx !! "toString" = None)
    by (apply (build_lookup_not_0x _ _ _ _ _ Hidx); discriminate).
  split; [assumption|].
  rewrite analyzeCall_closed. cbv zeta. unfold get.
  change (Js.slice0 10 (data (mkCall t "toString" Undefined))) with "toString".
  rewrite H. reflexivity.
Qed.

(** C5: the risk of a call is the sum of its contributions and the reasons
    are theirs, in the order they were applied: the unknown-selector
    contribution, or else the contribution of every rule of [RULES] that
    matches the lower-cased name, in the order of [RULES], and then the
    payability contribution; the value contribution comes last.  The analyzer
    returns this result whenever the looked-up object has a name. *)
Theorem analyzeCall_accumulates (idx : gmap string FunctionMeta) (call : QueuedCall) :
  let sel := Js.slice0 10 (data call) in
  let first_phase :=
    match get idx sel with
    | None => Some [(10, "Unknown selector (not in ABI)")]
    | Some meta =>
        match prop_name meta with
        | Some n => Some (rule_part RULES (Js.toLowerCase n) ++ payable_part meta)
        | None => None
        end
    end in
  match first_phase with
  | Some cs =>
      exists res, analyzeCall idx call = Return res /\
                  risk res = total (cs ++ value_part call) /\
                  reasons res = map snd (cs ++ value_part call)
  | None => analyzeCall idx call = TypeError
  end.
Proof.
  cbv zeta. rewrite analyzeCall_closed. cbv zeta.
  destruct (get idx (Js.slice0 10 (data call))) as [meta|].
  - destruct (prop_name meta) as [n|]; [|reflexivity].
    eexists; split; [reflexivity|]. rewrite <- app_assoc. split; reflexivity.
  - eexists; split; [reflexivity|]. split; reflexivity.
Qed.

(** C4: whatever the first phase did, resolved or not, the call's result is
    the result of the same call without a value, plus 5 and the reason
    "ETH value attached" at the end exactly when the value, coerced to a
    number with a missing or unparsable value counting as 0, is above 0. *)
Theorem value_check_independent (idx : gmap string FunctionMeta) (call : QueuedCall) :
  value_attached call = Number.gt (coerced_value call) Number.zero /\
  analyzeCall idx call =
  match analyzeCall idx (mkCall (to call) (data call) Undefined) with
  | Return res =>
      Return (if Number.gt (coerced_value call) Number.zero
              then mkResult (risk res + 5) (reasons res ++ ["ETH value attached"])
                            (selector res) (target res)
              else res)
  | other => other
  end.
Proof.
  assert (Hv : value_attached call = Number.gt (coerced_value call) Number.zero).
  { unfold value_attached, coerced_value, or_else.
    destruct (value call) as [|x|v]; simpl.
    - reflexivity.
    - destruct x as [[|]|[|]| |[|] m e]; reflexivity.
    - destruct (String.eqb_spec v "") as [->|Hne]; simpl; [reflexivity|].
      destruct (StringToNumber.StringToNumber v) as [[|]|[|]| |[|] m e]; reflexivity. }
  split; [assumption|].
  rewrite <- Hv, !analyzeCall_closed. cbv zeta. cbn [data].
  assert (Hvc : forall res,
    (if value_attached call
     then mkResult (risk res + 5) (reasons res ++ ["ETH value attached"])
                   (selector res) (target res)
     else res) = value_check call res) by reflexivity.
  assert (Hnone : value_part (mkCall (to call) (data call) Undefined) = [])
    by reflexivity.
  rewrite Hnone.
  destruct (get idx (Js.slice0 10 (data call))) as [meta|].
  - destruct (prop_name meta) as [n|]; [|reflexivity].
    rewrite Hvc, value_check_from, app_nil_r, <- app_assoc. reflexivity.
  - rewrite Hvc, value_check_from. reflexivity.
Qed.

(** C10: when the selector is a key of the index, the analyzer returns; the
    payability contribution is 5 with the reason "Payable call" when the
    entry's mutability is the string [payable], and there is none for any
    other mutability. *)
Theorem payable_call_reason (idx : gmap string FunctionMeta) (call : QueuedCall)
    (m : FunctionMeta) :
  idx !! Js.slice0 10 (data call) = Some m ->
  let rules := rule_part RULES (Js.toLowerCase (name m)) in
  exists res, analyzeCall idx call = Return res /\
    (stateMutability m = "payable" ->
       risk res = total rules + 5 + total (value_part call) /\
       reasons res = map snd rules ++ ["Payable call"] ++ map snd (value_part call)) /\
    (stateMutability m <> "payable" ->
       risk res = total rules + total (value_part call) /\
       reasons res = map snd rules ++ map snd (value_part call)).
Proof.
  intros Hm. cbv zeta. rewrite analyzeCall_closed. cbv zeta. unfold get. rewrite Hm.
  cbn [prop_name]. eexists; split; [reflexivity|].
  unfold payable_part, is_payable, result_from. cbn [risk reasons].
  destruct (String.eqb_spec (stateMutability m) "payable") as [Hp|Hp].
  - split; [intros _|contradiction].
    rewrite !total_app, !map_app. simpl. split; [lia|reflexivity].
  - split; [contradiction|intros _].
    rewrite !total_app, !map_app. simpl. split; [lia|reflexivity].
Qed.

(** C6: every key of an index built from an interface description has 10
    characters, [0x] and 8 digits among [0-9a-f], whatever the run-time
    library: one that has the digest, of 32 bytes, or one that has not, where
    the index has no key. *)
Theorem index_keys_well_formed (abi : list AbiEntry) (idx : gmap string FunctionMeta) :
  (forall hash sig, createHash "keccak256" = Return hash -> length (hash sig) = 32%nat) ->
  buildSelectorIndex createHash abi = Return idx ->
  map_Forall (fun k _ => well_formed_key k) idx.
Proof.
  intros Hlen Hidx k m Hk.
  destruct (index_entries_keys _ _ _ _ k Hidx) as [H|(hash & sig & Hh & ->)];
    [now rewrite Hk | |].
  - rewrite lookup_empty in H. now destruct H.
  - apply digest_key_well_formed. eapply Hlen; eassumption.
Qed.

End Claims.

Section NodeClaims.

Lemma main_without_index (createHash : string -> Outcome Hash) (abi : list AbiEntry)
    (calls : list QueuedCall) :
  buildSelectorIndex createHash abi = DigestNotSupported ->
  main createHash abi calls = DigestNotSupported.
Proof. unfold main. now intros ->. Qed.

Lemma has_function_app (l1 l2 : list AbiEntry) (f : AbiEntry) :
  is_function f = true -> has_function (l1 ++ f :: l2) = true.
Proof.
  intros Hf. unfold has_function. rewrite existsb_app. cbn [existsb].
  rewrite Hf. now rewrite orb_true_r.
Qed.

Lemma node_build (abi : list AbiEntry) :
  buildSelectorIndex node_createHash abi
  = if has_function abi then DigestNotSupported else Return ∅.
Proof. unfold buildSelectorIndex. now apply index_entries_unsupported. Qed.

(** C1 (what the code does): for an interface description with the function
    [mint(address,uint256)], of whatever mutability, no call is analysed.
    The selector is asked of a digest Node does not have: the index build
    throws, and so does [main], whatever the queue. *)
Theorem mint_description_throws (pre post : list AbiEntry) (mutability : option string)
    (calls : list QueuedCall) :
  let mint := mkEntry "function" "mint" (Some [mkInput "address"; mkInput "uint256"])
                      mutability in
  signature mint = "mint(address,uint256)" /\
  selector_of node_createHash (signature mint) = DigestNotSupported /\
  buildSelectorIndex node_createHash (pre ++ mint :: post) = DigestNotSupported /\
  main node_createHash (pre ++ mint :: post) calls = DigestNotSupported.
Proof.
  intros mint. split; [reflexivity|]. split; [reflexivity|].
  assert (H : buildSelectorIndex node_createHash (pre ++ mint :: post) = DigestNotSupported)
    by (rewrite node_build, has_function_app; reflexivity).
  split; [exact H | now apply main_without_index].
Qed.

(** C7 (what the code does): no selector is ever derived, so no entry is
    ever stored or overwritten: for two functions of the description, each
    signature's selector is asked of a digest Node does not have, and the
    index build throws, as [main] does whatever the queue. *)
Theorem collision_never_stored (l1 l2 l3 : list AbiEntry) (f g : AbiEntry)
    (calls : list QueuedCall) :
  is_function f = true -> is_function g = true ->
  selector_of node_createHash (signature f) = DigestNotSupported /\
  selector_of node_createHash (signature g) = DigestNotSupported /\
  buildSelectorIndex node_createHash (l1 ++ f :: l2 ++ g :: l3) = DigestNotSupported /\
  main node_createHash (l1 ++ f :: l2 ++ g :: l3) calls = DigestNotSupported.
Proof.
  intros Hf Hg. split; [reflexivity|]. split; [reflexivity|].
  assert (H : buildSelectorIndex node_createHash (l1 ++ f :: l2 ++ g :: l3)
              = DigestNotSupported)
    by (rewrite node_build, has_function_app by assumption; reflexivity).
  split; [exact H | now apply main_without_index].
Qed.

End NodeClaims.

Section UpgradeProxy.

Lemma rule_part_app (l1 l2 : list Rule) (n : string) :
  rule_part (l1 ++ l2) n = rule_part l1 n ++ rule_part l2 n.
Proof. unfold rule_part. now rewrite List.filter_app, map_app. Qed.

(** [upgrade], then anything on one line, then one of the two words. *)
Lemma upgrade_proxy_lang (mid w : string) :
  w = "implementation" \/ w = "proxy" ->
  one_line mid = true ->
  lang upgrade_proxy_regex ("upgrade" +:+ mid +:+ w).
Proof.
  intros Hw Hmid. unfold upgrade_proxy_regex.
  constructor; [apply RegExpFacts.lang_word|].
  constructor; [now apply RegExpFacts.lang_dot_star|].
  destruct Hw as [-> | ->];
    [apply lang_alt_l | apply lang_alt_r]; apply RegExpFacts.lang_word.
Qed.

(** C2, as the code has it: the upgrade-proxy rule matches every resolved
    call whose lower-cased name has "upgrade" and, after it with no line
    terminator in between, "implementation" or "proxy".  The rule then adds
    25 to the risk and its description "Proxy upgrade" to the reasons, after
    what the rule before it and before what the rules after it add. *)
Theorem upgrade_proxy_rule_matches (idx : gmap string FunctionMeta) (call : QueuedCall)
    (m : FunctionMeta) (a mid w b : string) :
  idx !! Js.slice0 10 (data call) = Some m ->
  Js.toLowerCase (name m) = a +:+ ("upgrade" +:+ mid +:+ w) +:+ b ->
  w = "implementation" \/ w = "proxy" ->
  one_line mid = true ->
  let lname := Js.toLowerCase (name m) in
  let before := rule_part (firstn 1 RULES) lname in
  let after := rule_part (skipn 2 RULES) lname ++ payable_part (Entry m) ++ value_part call in
  test upgrade_proxy_regex lname = true /\
  exists res, analyzeCall idx call = Return res /\
    risk res = total before + 25 + total after /\
    reasons res = map snd before ++ ["Proxy upgrade"] ++ map snd after.
Proof.
  intros Hm Hname Hw Hmid lname before after.
  assert (Ht : test upgrade_proxy_regex lname = true).
  { apply RegExpFacts.test_spec. exists a, ("upgrade" +:+ mid +:+ w), b.
    split; [exact Hname | now apply upgrade_proxy_lang]. }
  split; [assumption|].
  rewrite analyzeCall_closed. cbv zeta. unfold get. rewrite Hm. cbn [prop_name].
  eexists; split; [reflexivity|]. fold lname.
  assert (Hr : rule_part RULES lname
               = before ++ [(25, "Proxy upgrade")] ++ rule_part (skipn 2 RULES) lname).
  { change RULES with (firstn 1 RULES ++ [mkRule "upgrade-proxy" upgrade_proxy_regex 25 "Proxy upgrade"] ++ skipn 2 RULES) at 1.
    rewrite !rule_part_app. f_equal. f_equal.
    unfold rule_part. simpl List.filter. cbn [regex]. now rewrite Ht. }
  unfold result_from. cbn [risk reasons]. rewrite Hr. subst after.
  rewrite <- !app_assoc, !total_app, !map_app. simpl. split; [lia | reflexivity].
Qed.

End UpgradeProxy.

(** C2, as the claim has it, fails: the lower-cased name of [proxyUpgrade]
    mentions both "upgrade" and "proxy", the upgrade-proxy rule does not match
    it, and a call that resolves to that function gets risk 0 and no reason. *)
Lemma upgrade_proxy_order_counterexample :
  Js.toLowerCase "proxyUpgrade" = "proxy" +:+ "upgrade" /\
  test upgrade_proxy_regex (Js.toLowerCase "proxyUpgrade") = false /\
  analyzeCall {[ "0x12345678" := mkMeta "proxyUpgrade" [] "nonpayable" ]}
              (mkCall "0xTarget" "0x12345678" (Num Number.zero))
  = Return (mkResult 0 [] "0x12345678" None).
Proof.
  split; [reflexivity|]. split; [reflexivity|].
  rewrite analyzeCall_closed. cbv zeta. unfold get.
  change (Js.slice0 10 _) with "0x12345678".
  rewrite lookup_singleton_eq. reflexivity.
Qed.

Section Report.

Variable createHash : string -> Outcome Hash.

(** C8: the report of a queue of fewer than [2^32] calls, each of which the
    analyzer returns a result for, on the index built from the description.
    Its items are those results, one per call in the order of the calls, each
    with its call's [to] as target.  Its average is the literal "0.00" when
    there is no result; in every case it is written with exactly two
    fraction digits, and the number written is [n / 100] for an integer [n]
    nearest to 100 times the arithmetic mean of the risks. *)
Theorem report_average (abi : list AbiEntry) (idx : gmap string FunctionMeta)
    (calls : list QueuedCall) (results : list AnalysisResult) :
  buildSelectorIndex createHash abi = Return idx ->
  Z.of_nat (length calls) < 2 ^ 32 ->
  Forall2 (result_of_call idx) calls results ->
  exists avg n,
    main createHash abi calls = Return (mkReport avg results) /\
    (results = [] -> avg = "0.00") /\
    two_fraction_digits avg n /\ 0 <= n /\
    (2 * n - 1) * Z.of_nat (length results) <= 200 * sum_risks results
      <= (2 * n + 1) * Z.of_nat (length results).
Proof.
  intros Hidx Hlen Hres. unfold main. rewrite Hidx. cbn [bind].
  rewrite (analyze_all_results _ _ results) by assumption. cbn [app bind].
  destruct (report_of_results results) as (avg & n & Hrep & Hnil & -> & Hn & Hnear).
  - eapply sum_risks_bound; eassumption.
  - now rewrite <- (Forall2_length _ _ _ Hres).
  - exists (fixed2 n), n. split; [exact Hrep|]. split; [exact Hnil|].
    split; [now apply fixed2_two_fraction_digits|]. split; assumption.
Qed.

End Report.

(** ** The statements on concrete documents *)

Lemma sample_abi_index : buildSelectorIndex node_createHash sample_abi = Return ∅.
Proof. reflexivity. Qed.

Lemma analyzeCall_proto_throws_witness :
  analyzeCall ∅ (mkCall "0xVault" "__proto__" Undefined) = TypeError.
Proof.
  exact (analyzeCall_proto_throws node_createHash sample_abi ∅ "0xVault" Undefined
           sample_abi_index).
Defined.

Lemma analyzeCall_inherited_selector_witness :
  (∅ : gmap string FunctionMeta) !! "toString" = None /\
  analyzeCall ∅ (mkCall "0xVault" "toString" Undefined)
  = Return (mkResult 0 [] "toString" None).
Proof.
  exact (analyzeCall_inherited_selector node_createHash sample_abi ∅ "0xVault"
           sample_abi_index).
Defined.

Lemma index_keys_well_formed_witness :
  map_Forall (fun k _ => well_formed_key k) (∅ : gmap string FunctionMeta) /\
  map_Forall (fun k _ => well_formed_key k)
             (<[ "0x6d696e74" := meta_of mint_entry ]> (∅ : gmap string FunctionMeta)).
Proof.
  assert (Hnode : forall hash sig,
            node_createHash "keccak256" = Return hash -> length (hash sig) = 32%nat)
    by discriminate.
  assert (Hsample : forall hash sig,
            sample_createHash "keccak256" = Return hash -> length (hash sig) = 32%nat)
    by (intros hash sig [= <-]; apply sample_digest_length).
  assert (Hidx : buildSelectorIndex sample_createHash [mint_entry]
                 = Return (<[ "0x6d696e74" := meta_of mint_entry ]> ∅))
    by (vm_compute; reflexivity).
  split.
  - exact (index_keys_well_formed node_createHash sample_abi ∅ Hnode sample_abi_index).
  - exact (index_keys_well_formed sample_createHash [mint_entry] _ Hsample Hidx).
Defined.

Lemma collision_never_stored_witness :
  signature transfer_entry <> signature many_msg_babbage_entry /\
  buildSelectorIndex node_createHash
    [transfer_event; transfer_entry; many_msg_babbage_entry] = DigestNotSupported /\
  main node_createHash [transfer_event; transfer_entry; many_msg_babbage_entry]
       [mkCall "0xToken" "0xa9059cbb" Undefined] = DigestNotSupported.
Proof.
  split; [discriminate|].
  exact (proj2 (proj2 (collision_never_stored [transfer_event] [] [] transfer_entry
                         many_msg_babbage_entry [mkCall "0xToken" "0xa9059cbb" Undefined]
                         eq_refl eq_refl))).
Defined.

Lemma payable_call_reason_witness :
  exists res,
    analyzeCall {[ "0x2f2ff15d" := grantRole_meta ]}
                (mkCall "0xDao" "0x2f2ff15d00" (Num Number.zero)) = Return res /\
    risk res = 20 /\ reasons res = ["Role change"; "Payable call"].
Proof.
  destruct (payable_call_reason {[ "0x2f2ff15d" := grantRole_meta ]}
              (mkCall "0xDao" "0x2f2ff15d00" (Num Number.zero)) grantRole_meta
              (lookup_singleton_eq _ _)) as (res & Hres & Hpay & _).
  exists res. split; [exact Hres|]. exact (Hpay eq_refl).
Defined.

Lemma upgrade_proxy_rule_matches_witness :
  test upgrade_proxy_regex (Js.toLowerCase "upgradeToAndCallProxy") = true /\
  exists res,
    analyzeCall {[ "0x4f1ef286" := upgradeTo_meta ]}
                (mkCall "0xProxy" "0x4f1ef286" Undefined) = Return res /\
    risk res = 25 /\ reasons res = ["Proxy upgrade"].
Proof.
  exact (upgrade_proxy_rule_matches {[ "0x4f1ef286" := upgradeTo_meta ]}
           (mkCall "0xProxy" "0x4f1ef286" Undefined) upgradeTo_meta
           "" "toandcall" "proxy" "" (lookup_singleton_eq _ _) eq_refl
           (or_intror eq_refl) eq_refl).
Defined.

Lemma sample_results_of_calls : Forall2 (result_of_call ∅) sample_calls sample_results.
Proof. repeat constructor; eexists; (split; [vm_compute; reflexivity | reflexivity]). Qed.

Lemma report_average_witness :
  exists avg n,
    main node_createHash sample_abi sample_calls = Return (mkReport avg sample_results) /\
    (sample_results = [] -> avg = "0.00") /\
    two_fraction_digits avg n /\ 0 <= n /\
    (2 * n - 1) * 3 <= 200 * 35 <= (2 * n + 1) * 3.
Proof.
  exact (report_average node_createHash sample_abi ∅ sample_calls sample_results
           sample_abi_index ltac:(simpl; lia) sample_results_of_calls).
Defined.

(** * Further properties of the code *)

(** ** parseArgs *)

Section ParseArgsFacts.

Lemma parse_pairs_app (pre rest : list string) (args : Args) :
  Nat.even (length pre) = true ->
  parse_pairs (pre ++ rest) args = parse_pairs rest (parse_pairs pre args).
Proof.
  remember (length pre) as n eqn:Hn. revert pre args Hn.
  induction n as [n IH] using lt_wf_ind. intros pre args Hn Heven.
  destruct pre as [|flag [|v pre]].
  - reflexivity.
  - subst n. discriminate.
  - simpl. apply (IH (length pre)); [subst n; simpl; lia | reflexivity|].
    subst n. exact Heven.
Qed.

(** A flag that is not looked for leaves its field as it is. *)
Lemma set_flag_abi_other (args : Args) (flag : string) (v : option string) :
  flag <> "--abi" -> args_abi (set_flag args flag v) = args_abi args.
Proof.
  intros H. unfold set_flag. rewrite (proj2 (String.eqb_neq _ _) H).
  destruct (String.eqb flag "--calls"); reflexivity.
Qed.

Lemma set_flag_calls_other (args : Args) (flag : string) (v : option string) :
  flag <> "--calls" -> args_calls (set_flag args flag v) = args_calls args.
Proof.
  intros H. unfold set_flag. rewrite (proj2 (String.eqb_neq _ _) H).
  destruct (String.eqb flag "--abi"); reflexivity.
Qed.

Lemma parse_pairs_abi_other (rest : list string) (args : Args) :
  Forall (fun x => x <> "--abi") (flag_positions rest) ->
  args_abi (parse_pairs rest args) = args_abi args.
Proof.
  remember (length rest) as n eqn:Hn. revert rest args Hn.
  induction n as [n IH] using lt_wf_ind. intros rest args Hn H.
  destruct rest as [|flag [|v rest]].
  - reflexivity.
  - simpl in *. inversion H; subst. now apply set_flag_abi_other.
  - simpl in *. inversion H; subst.
    rewrite (IH (length rest)); [|lia|reflexivity|assumption].
    now apply set_flag_abi_other.
Qed.

Lemma parse_pairs_calls_other (rest : list string) (args : Args) :
  Forall (fun x => x <> "--calls") (flag_positions rest) ->
  args_calls (parse_pairs rest args) = args_calls args.
Proof.
  remember (length rest) as n eqn:Hn. revert rest args Hn.
  induction n as [n IH] using lt_wf_ind. intros rest args Hn H.
  destruct rest as [|flag [|v rest]].
  - reflexivity.
  - simpl in *. inversion H; subst. now apply set_flag_calls_other.
  - simpl in *. inversion H; subst.
    rewrite (IH (length rest)); [|lia|reflexivity|assumption].
    now apply set_flag_calls_other.
Qed.

End ParseArgsFacts.

(** X1: a field keeps its default file name when none of the arguments the
    loop looks at, those at the indices 2, 4, 6, ... of [process.argv], is
    its flag; a flag at an odd index is not seen. *)
Theorem parseArgs_defaults (argv : list string) :
  (Forall (fun x => x <> "--abi") (flag_positions (skipn 2 argv)) ->
   args_abi (parseArgs argv) = Some "abi.json") /\
  (Forall (fun x => x <> "--calls") (flag_positions (skipn 2 argv)) ->
   args_calls (parseArgs argv) = Some "calls.json").
Proof.
  split; intros H; unfold parseArgs.
  - now rewrite parse_pairs_abi_other.
  - now rewrite parse_pairs_calls_other.
Qed.

(** X2: the last flag at an even index wins: its field is the argument that
    follows it, whatever that argument is and whatever came before. *)
Theorem parseArgs_last_wins (node script : string) (pre post : list string) (v : string) :
  Nat.even (length pre) = true ->
  (Forall (fun x => x <> "--abi") (flag_positions post) ->
   args_abi (parseArgs (node :: script :: pre ++ "--abi" :: v :: post)) = Some v) /\
  (Forall (fun x => x <> "--calls") (flag_positions post) ->
   args_calls (parseArgs (node :: script :: pre ++ "--calls" :: v :: post)) = Some v).
Proof.
  intros Heven. unfold parseArgs. cbv [skipn].
  split; intros H; rewrite parse_pairs_app by assumption; cbn [parse_pairs].
  - now rewrite parse_pairs_abi_other.
  - now rewrite parse_pairs_calls_other.
Qed.

(** X3: a flag that ends the command line, at an even index, sets its field
    to [undefined] and leaves the other field as it was. *)
Theorem parseArgs_trailing_flag (node script : string) (pre : list string) :
  Nat.even (length pre) = true ->
  let before := parseArgs (node :: script :: pre) in
  parseArgs (node :: script :: pre ++ ["--abi"]) = mkArgs None (args_calls before) /\
  parseArgs (node :: script :: pre ++ ["--calls"]) = mkArgs (args_abi before) None.
Proof.
  intros Heven. unfold parseArgs. cbv [skipn].
  rewrite !parse_pairs_app by assumption. split; reflexivity.
Qed.

Lemma parseArgs_defaults_witness :
  Forall (fun x => x <> "--abi")
         (flag_positions (skipn 2 ["node"; "auditor.js"; "-v"; "--abi"; "erc20.json"])) /\
  args_abi (parseArgs ["node"; "auditor.js"; "-v"; "--abi"; "erc20.json"]) = Some "abi.json".
Proof.
  assert (H : Forall (fun x => x <> "--abi")
                (flag_positions (skipn 2 ["node"; "auditor.js"; "-v"; "--abi"; "erc20.json"])))
    by (repeat constructor; discriminate).
  split; [exact H|].
  exact (proj1 (parseArgs_defaults ["node"; "auditor.js"; "-v"; "--abi"; "erc20.json"]) H).
Defined.

Lemma parseArgs_last_wins_witness :
  args_abi (parseArgs ["node"; "auditor.js"; "--abi"; "a.json"; "--abi"; "--calls"; "c.json"])
  = Some "--calls".
Proof.
  exact (proj1 (parseArgs_last_wins "node" "auditor.js" ["--abi"; "a.json"] ["c.json"]
                  "--calls" eq_refl)
           ltac:(repeat constructor; discriminate)).
Defined.

Lemma parseArgs_trailing_flag_witness :
  parseArgs ["node"; "auditor.js"; "--calls"; "q.json"; "--abi"]
  = mkArgs None (Some "q.json").
Proof.
  exact (proj1 (parseArgs_trailing_flag "node" "auditor.js" ["--calls"; "q.json"] eq_refl)).
Defined.

(** ** More on the selector index *)

Section IndexExtras.

Variable createHash : string -> Outcome Hash.

(** X4: entries whose type is not ["function"] leave no trace: the index
    build ends as it does on the function entries alone, and it returns the
    empty index when the description has no function entry. *)
Theorem index_ignores_non_functions (abi : list AbiEntry) :
  buildSelectorIndex createHash abi
  = buildSelectorIndex createHash (List.filter is_function abi) /\
  (forallb (fun f => negb (is_function f)) abi = true ->
   buildSelectorIndex createHash abi = Return ∅).
Proof.
  split; [apply index_entries_filter|]. intros Hall.
  apply index_entries_no_function. unfold has_function.
  induction abi as [|f abi IH]; [reflexivity|]. cbn [forallb existsb] in *.
  apply andb_true_iff in Hall as [Hf Hall]. apply negb_true_iff in Hf.
  rewrite Hf. now apply IH.
Qed.

(** X5: on Node the index never has a key.  The build throws exactly when
    the description has a function entry, and it returns the empty index
    exactly when it has none. *)
Theorem node_index_has_no_key (abi : list AbiEntry) :
  (buildSelectorIndex node_createHash abi = DigestNotSupported
   <-> has_function abi = true) /\
  (buildSelectorIndex node_createHash abi = Return ∅ <-> has_function abi = false) /\
  (forall idx, buildSelectorIndex node_createHash abi = Return idx -> idx = ∅).
Proof.
  rewrite node_build. destruct (has_function abi).
  - split; [tauto|]. split; [split; discriminate | discriminate].
  - split; [split; discriminate|]. split; [tauto|]. now intros idx [= <-].
Qed.

End IndexExtras.

(** ** More on the patterns *)

Module PatternFacts.

Import RegExpFacts.

Lemma lower_char_idem (c : ascii) : Js.lower_char (Js.lower_char c) = Js.lower_char c.
Proof. destruct c as [[] [] [] [] [] [] [] []]; reflexivity. Qed.

Lemma toLowerCase_append (s t : string) :
  Js.toLowerCase (s +:+ t) = Js.toLowerCase s +:+ Js.toLowerCase t.
Proof.
  induction s as [|c s IH]; [reflexivity|].
  rewrite append_cons. simpl. now rewrite IH, append_cons.
Qed.

Lemma toLowerCase_idem (s : string) : Js.toLowerCase (Js.toLowerCase s) = Js.toLowerCase s.
Proof. induction s as [|c s IH]; simpl; [reflexivity | now rewrite lower_char_idem, IH]. Qed.

Lemma append_inj_length (a b c d : string) :
  String.length a = String.length c -> a +:+ b = c +:+ d -> a = c /\ b = d.
Proof.
  revert c. induction a as [|x a IH]; intros [|y c] Hlen H; simpl in Hlen; try discriminate.
  - now rewrite !append_nil_l in H.
  - rewrite !append_cons in H. injection H as -> H.
    destruct (IH c) as [-> ->]; [lia | assumption | tauto].
Qed.

Lemma length_toLowerCase (s : string) : String.length (Js.toLowerCase s) = String.length s.
Proof. induction s as [|c s IH]; simpl; [reflexivity | now rewrite IH]. Qed.

(** A part of a lower-cased string is lower-cased. *)
Lemma lowered_part (s a p b : string) :
  Js.toLowerCase s = s -> s = a +:+ p +:+ b -> Js.toLowerCase p = p.
Proof.
  intros Hs ->. rewrite !toLowerCase_append in Hs.
  apply append_inj_length in Hs as [_ Hs]; [|apply length_toLowerCase].
  apply append_inj_length in Hs as [Hp _]; [assumption | apply length_toLowerCase].
Qed.

(** A lower-case letter of a pattern matches, among the lower-cased
    characters, itself only. *)
Lemma char_matches_lowered (c x : ascii) :
  is_lower_letter c = true -> Js.lower_char x = x -> char_matches c x = true -> x = c.
Proof.
  intros Hc Hx Hm. apply Ascii.eqb_eq in Hm.
  assert (Hcl : Js.lower_char (Js.canonicalize c) = c).
  { destruct c as [[] [] [] [] [] [] [] []]; try discriminate Hc; reflexivity. }
  assert (Hxl : Js.lower_char (Js.canonicalize x) = Js.lower_char x).
  { clear. destruct x as [[] [] [] [] [] [] [] []]; reflexivity. }
  rewrite <- Hx, <- Hxl, <- Hm. exact Hcl.
Qed.

(** On a lower-cased string, a run of lower-case letters matches itself
    only. *)
Lemma lang_word_lowered (w p : string) :
  string_forall is_lower_letter w = true -> Js.toLowerCase p = p ->
  lang (word w) p -> p = w.
Proof.
  revert p. induction w as [|c w IH]; intros p Hw Hp H; simpl in *.
  - inversion H. reflexivity.
  - apply andb_true_iff in Hw as [Hc Hw].
    apply lang_cat_inv in H as (s1 & s2 & -> & H1 & H2).
    inversion H1 as [|? x Hm| | | | | |]; subst.
    rewrite append_cons, append_nil_l in Hp |- *. simpl in Hp. injection Hp as Hx Hp.
    f_equal; [now apply char_matches_lowered | now apply IH].
Qed.

Lemma one_line_append (s t : string) : one_line (s +:+ t) = one_line s && one_line t.
Proof.
  induction s as [|c s IH]; [reflexivity|].
  rewrite append_cons. simpl. now rewrite IH, andb_assoc.
Qed.

Lemma lang_dot_star_inv (s : string) : lang (Star Dot) s -> one_line s = true.
Proof.
  intros H. remember (Star Dot) as r eqn:Hr.
  induction H; try discriminate; [reflexivity|].
  injection Hr as ->. rewrite one_line_append, IHlang2 by reflexivity.
  inversion H as [| |x Hx| | | | |]; subst. simpl. now rewrite Hx.
Qed.

(** A pattern that is a run of lower-case letters finds the lower-cased
    names that contain it. *)
Lemma test_word_contains (w s : string) :
  string_forall is_lower_letter w = true -> Js.toLowerCase s = s ->
  test (word w) s = true <-> contains w s.
Proof.
  intros Hw Hs. rewrite test_spec. unfold contains. split.
  - intros (a & p & b & -> & H).
    assert (p = w) as -> by (eapply lang_word_lowered; eauto using lowered_part).
    eauto.
  - intros (a & b & ->). exists a, w, b. split; [reflexivity | apply lang_word].
Qed.

(** On a lower-cased string, [w1.*w2] matches [w1], then one line, then
    [w2]. *)
Lemma lang_followed_by (w1 w2 p : string) :
  string_forall is_lower_letter w1 = true ->
  string_forall is_lower_letter w2 = true ->
  Js.toLowerCase p = p ->
  lang (Cat (word w1) (Cat (Star Dot) (word w2))) p ->
  exists mid, p = w1 +:+ mid +:+ w2 /\ one_line mid = true.
Proof.
  intros Hw1 Hw2 Hp H.
  apply lang_cat_inv in H as (p1 & p' & -> & H1 & H).
  apply lang_cat_inv in H as (p2 & p3 & -> & H2 & H3).
  assert (p1 = w1) as ->.
  { eapply lang_word_lowered; eauto. eapply (lowered_part _ "" p1 (p2 +:+ p3)); eauto. }
  assert (p3 = w2) as ->.
  { eapply lang_word_lowered; eauto.
    eapply (lowered_part _ (w1 +:+ p2) p3 ""); eauto.
    now rewrite append_nil_r, append_assoc. }
  exists p2. split; [reflexivity | now apply lang_dot_star_inv].
Qed.

End PatternFacts.

(** ** More on the call analyzer *)

Section AnalyzerMore.

Lemma In_existsb (d : string) (l : list string) :
  In d l <-> existsb (String.eqb d) l = true.
Proof.
  rewrite existsb_exists. split.
  - intros H. exists d. split; [assumption | apply String.eqb_refl].
  - intros (x & Hx & Heq). apply String.eqb_eq in Heq. now subst.
Qed.

(** The reasons of a resolved call tell which rules matched. *)
Lemma resolved_reasons (idx : gmap string FunctionMeta) (call : QueuedCall)
    (m : FunctionMeta) (res : AnalysisResult) :
  idx !! call_selector call = Some m ->
  analyzeCall idx call = Return res ->
  forall rule, In rule RULES ->
    In (desc rule) (reasons res) <-> test (regex rule) (Js.toLowerCase (name m)) = true.
Proof.
  intros Hm. rewrite analyzeCall_closed. cbv zeta. unfold get.
  unfold call_selector in Hm. rewrite Hm. cbn [prop_name]. intros [= <-].
  unfold result_from. cbn [reasons].
  assert (H : forallb (fun rule =>
              Bool.eqb (existsb (String.eqb (desc rule))
                          (map snd (rule_part RULES (Js.toLowerCase (name m))
                                    ++ payable_part (Entry m) ++ value_part call)))
                       (test (regex rule) (Js.toLowerCase (name m)))) RULES = true).
  { unfold rule_part, RULES. cbn [List.filter forallb regex desc].
    unfold payable_part, value_part.
    repeat match goal with |- context [if test ?r ?n then _ else _] =>
      destruct (test r n) end;
    destruct (is_payable (Entry m)), (value_attached call); vm_compute; reflexivity. }
  intros rule Hrule. rewrite forallb_forall in H. specialize (H rule Hrule).
  apply Bool.eqb_prop in H. now rewrite In_existsb, H.
Qed.

Lemma analyzeCall_TypeError_iff (idx : gmap string FunctionMeta) (call : QueuedCall) :
  analyzeCall idx call = TypeError <->
  call_selector call = "__proto__" /\ idx !! "__proto__" = None.
Proof.
  unfold call_selector. rewrite analyzeCall_closed. cbv zeta. unfold get.
  destruct (idx !! Js.slice0 10 (data call)) as [m|] eqn:Hidx; cbn [prop_name].
  - split; [discriminate|]. intros [Hs Hn]. rewrite Hs in Hidx. congruence.
  - unfold Object_prototype.
    destruct (String.eqb_spec (Js.slice0 10 (data call)) "__proto__") as [Hs|Hs].
    + cbn [prop_name]. split; [|reflexivity]. intros _. rewrite Hs in Hidx. tauto.
    + destruct (String.eqb _ "constructor"); cbn [prop_name];
        [split; [discriminate | tauto]|].
      destruct (existsb _ _); cbn [prop_name]; (split; [discriminate | tauto]).
Qed.

End AnalyzerMore.

Section AnalyzerExtras.

Import PatternFacts RegExpFacts.

Lemma contains_lang_alt_pause (s : string) :
  Js.toLowerCase s = s ->
  test (Alt (word "pause") (word "unpause")) s = true <-> contains "pause" s.
Proof.
  intros Hs. rewrite test_spec. unfold contains. split.
  - intros (a & p & b & -> & H). apply lang_alt_inv in H as [H|H].
    + assert (p = "pause") as -> by (eapply lang_word_lowered; eauto using lowered_part).
      eauto.
    + assert (p = "unpause") as -> by (eapply lang_word_lowered; eauto using lowered_part).
      exists (a +:+ "un"), b. now rewrite append_assoc.
  - intros (a & b & ->). exists a, "pause", b.
    split; [reflexivity | apply lang_alt_l, lang_word].
Qed.

Lemma followed_by_test (r : pattern) (w1 w2 s : string) :
  (forall mid, one_line mid = true -> lang r (w1 +:+ mid +:+ w2)) ->
  followed_by w1 w2 s -> test r s = true.
Proof.
  intros Hr (a & mid & b & -> & Hmid). apply test_spec.
  exists a, (w1 +:+ mid +:+ w2), b. split; [|auto].
  now rewrite !append_assoc.
Qed.

Lemma followed_by_intro (w1 w2 a mid b : string) :
  one_line mid = true -> followed_by w1 w2 (a +:+ (w1 +:+ mid +:+ w2) +:+ b).
Proof. intros H. exists a, mid, b. split; [now rewrite !append_assoc | assumption]. Qed.

Lemma test_upgrade_proxy (s : string) :
  Js.toLowerCase s = s ->
  test upgrade_proxy_regex s = true <->
  followed_by "upgrade" "implementation" s \/ followed_by "upgrade" "proxy" s.
Proof.
  intros Hs. split.
  - intros H. apply test_spec in H as (a & p & b & -> & H).
    pose proof (lowered_part _ _ _ _ Hs eq_refl) as Hp.
    unfold upgrade_proxy_regex in H.
    apply lang_cat_inv in H as (p1 & p' & -> & H1 & H).
    apply lang_cat_inv in H as (p2 & p3 & -> & H2 & H3).
    apply lang_alt_inv in H3 as [H3|H3]; [left|right].
    + destruct (lang_followed_by "upgrade" "implementation" (p1 +:+ p2 +:+ p3))
        as (mid & -> & Hmid); [reflexivity|reflexivity|assumption| |].
      { constructor; [assumption|]. now constructor. }
      now apply followed_by_intro.
    + destruct (lang_followed_by "upgrade" "proxy" (p1 +:+ p2 +:+ p3))
        as (mid & -> & Hmid); [reflexivity|reflexivity|assumption| |].
      { constructor; [assumption|]. now constructor. }
      now apply followed_by_intro.
  - intros [H|H]; eapply followed_by_test; try exact H; intros mid Hmid;
      unfold upgrade_proxy_regex.
    + constructor; [apply lang_word|]. constructor; [now apply lang_dot_star|].
      apply lang_alt_l, lang_word.
    + constructor; [apply lang_word|]. constructor; [now apply lang_dot_star|].
      apply lang_alt_r, lang_word.
Qed.

Lemma test_role_admin (s : string) :
  Js.toLowerCase s = s ->
  test role_admin_regex s = true <->
  followed_by "grant" "role" s \/ followed_by "revoke" "role" s.
Proof.
  intros Hs. split.
  - intros H. apply test_spec in H as (a & p & b & -> & H).
    pose proof (lowered_part _ _ _ _ Hs eq_refl) as Hp.
    unfold role_admin_regex in H.
    apply lang_cat_inv in H as (p1 & p' & -> & H1 & H).
    apply lang_alt_inv in H1 as [H1|H1]; [left|right].
    + destruct (lang_followed_by "grant" "role" (p1 +:+ p'))
        as (mid & -> & Hmid); [reflexivity|reflexivity|assumption| |].
      { now constructor. }
      now apply followed_by_intro.
    + destruct (lang_followed_by "revoke" "role" (p1 +:+ p'))
        as (mid & -> & Hmid); [reflexivity|reflexivity|assumption| |].
      { now constructor. }
      now apply followed_by_intro.
  - intros [H|H]; eapply followed_by_test; try exact H; intros mid Hmid;
      unfold role_admin_regex.
    + constructor; [apply lang_alt_l, lang_word|].
      constructor; [now apply lang_dot_star | apply lang_word].
    + constructor; [apply lang_alt_r, lang_word|].
      constructor; [now apply lang_dot_star | apply lang_word].
Qed.

(** X10: for a call that resolves to a function, the reasons "Potential
    delegatecall use", "Token minting" and "Pausing contract" are given
    exactly when the lower-cased name contains [delegatecall], [mint] and
    [pause]: the alternative [unpause] of the pause pattern adds nothing. *)
Theorem word_rules_meaning (idx : gmap string FunctionMeta) (call : QueuedCall)
    (m : FunctionMeta) (res : AnalysisResult) :
  idx !! call_selector call = Some m ->
  analyzeCall idx call = Return res ->
  let lname := Js.toLowerCase (name m) in
  (In "Potential delegatecall use" (reasons res) <-> contains "delegatecall" lname) /\
  (In "Token minting" (reasons res) <-> contains "mint" lname) /\
  (In "Pausing contract" (reasons res) <-> contains "pause" lname).
Proof.
  intros Hm Hres lname.
  pose proof (resolved_reasons idx call m res Hm Hres) as H.
  assert (Hl : Js.toLowerCase lname = lname) by apply toLowerCase_idem.
  split; [|split].
  - rewrite (H (mkRule "delegatecall" (word "delegatecall") 40 "Potential delegatecall use"))
      by (simpl; tauto).
    now apply test_word_contains.
  - rewrite (H (mkRule "mint" (word "mint") 20 "Token minting")) by (simpl; tauto).
    now apply test_word_contains.
  - rewrite (H (mkRule "pause" (Alt (word "pause") (word "unpause")) 10 "Pausing contract"))
      by (simpl; tauto).
    now apply contains_lang_alt_pause.
Qed.

(** X11: for a call that resolves to a function, the reason "Proxy upgrade"
    is given exactly when, in the lower-cased name, [implementation] or
    [proxy] follows [upgrade] with no line terminator in between. *)
Theorem upgrade_proxy_meaning (idx : gmap string FunctionMeta) (call : QueuedCall)
    (m : FunctionMeta) (res : AnalysisResult) :
  idx !! call_selector call = Some m ->
  analyzeCall idx call = Return res ->
  let lname := Js.toLowerCase (name m) in
  In "Proxy upgrade" (reasons res) <->
  followed_by "upgrade" "implementation" lname \/ followed_by "upgrade" "proxy" lname.
Proof.
  intros Hm Hres lname.
  rewrite (resolved_reasons idx call m res Hm Hres
             (mkRule "upgrade-proxy" upgrade_proxy_regex 25 "Proxy upgrade"))
    by (simpl; tauto).
  apply test_upgrade_proxy, toLowerCase_idem.
Qed.

(** X12: for a call that resolves to a function, the reason "Role change"
    is given exactly when, in the lower-cased name, [role] follows [grant] or
    [revoke] with no line terminator in between. *)
Theorem role_admin_meaning (idx : gmap string FunctionMeta) (call : QueuedCall)
    (m : FunctionMeta) (res : AnalysisResult) :
  idx !! call_selector call = Some m ->
  analyzeCall idx call = Return res ->
  let lname := Js.toLowerCase (name m) in
  In "Role change" (reasons res) <->
  followed_by "grant" "role" lname \/ followed_by "revoke" "role" lname.
Proof.
  intros Hm Hres lname.
  rewrite (resolved_reasons idx call m res Hm Hres
             (mkRule "role-admin" role_admin_regex 15 "Role change"))
    by (simpl; tauto).
  apply test_role_admin, toLowerCase_idem.
Qed.

(** X14: [analyzeCall] throws exactly when the selector is [__proto__] and
    the index has no such key (an index built by [buildSelectorIndex] never
    has); in every other case it returns a result. *)
Theorem analyzeCall_throws_iff (idx : gmap string FunctionMeta) (call : QueuedCall) :
  (analyzeCall idx call = TypeError <->
   call_selector call = "__proto__" /\ idx !! "__proto__" = None) /\
  (analyzeCall idx call <> TypeError -> exists res, analyzeCall idx call = Return res).
Proof.
  split; [apply analyzeCall_TypeError_iff|]. intros Hne.
  destruct (analyzeCall_outcomes idx call) as [H|H]; [assumption | contradiction].
Qed.

(** X15: for data that starts with the character [0], as every hexadecimal
    string does, a selector that is not a key of the index is scored as
    unknown: risk 10 and the one reason, or 15 with "ETH value attached"
    after it. *)
Theorem hex_unknown_selector (idx : gmap string FunctionMeta) (call : QueuedCall)
    (rest : string) :
  data call = String "0" rest ->
  idx !! call_selector call = None ->
  analyzeCall idx call =
  Return (if value_attached call
          then mkResult 15 ["Unknown selector (not in ABI)"; "ETH value attached"]
                        (call_selector call) None
          else mkResult 10 ["Unknown selector (not in ABI)"] (call_selector call) None).
Proof.
  intros Hd Hidx. unfold call_selector in *.
  rewrite unknown_selector_scored; [| assumption | rewrite Hd; reflexivity].
  unfold value_part. destruct (value_attached call); reflexivity.
Qed.

(** X16: what every result of [analyzeCall] satisfies: the risk is a multiple
    of 5 between 0 and 120, there are at most 7 reasons and none twice, the
    risk is 0 exactly when there is no reason, the selector is the first ten
    characters of the data and the target is not set. *)
Theorem analyzeCall_result_invariants (idx : gmap string FunctionMeta)
    (call : QueuedCall) (res : AnalysisResult) :
  analyzeCall idx call = Return res ->
  0 <= risk res <= 120 /\ risk res mod 5 = 0 /\
  (length (reasons res) <= 7)%nat /\ List.NoDup (reasons res) /\
  (risk res = 0 <-> reasons res = []) /\
  selector res = call_selector call /\ target res = None.
Proof.
  rewrite analyzeCall_closed. cbv zeta. unfold call_selector.
  assert (Hcs : forall cs sel,
    (0 <=? total cs) && (total cs <=? 120) && (total cs mod 5 =? 0)
    && (length (map snd cs) <=? 7)%nat
    && Bool.eqb (total cs =? 0) (Nat.eqb (length cs) 0)
    && (if List.list_eq_dec string_dec (nodup string_dec (map snd cs)) (map snd cs)
        then true else false) = true ->
    let r := result_from sel cs in
    0 <= risk r <= 120 /\ risk r mod 5 = 0 /\
    (length (reasons r) <= 7)%nat /\ List.NoDup (reasons r) /\
    (risk r = 0 <-> reasons r = []) /\ selector r = sel /\ target r = None).
  { intros cs sel H. cbn.
    repeat (apply andb_true_iff in H as [H ?]).
    apply Z.leb_le in H. apply Z.leb_le in H4. apply Z.eqb_eq in H3.
    apply Nat.leb_le in H2. apply Bool.eqb_prop in H1.
    repeat split; try assumption; try lia.
    - destruct (List.list_eq_dec _ _ _) as [Heq|]; [|discriminate].
      rewrite <- Heq. apply List.NoDup_nodup.
    - intros Hz. apply Z.eqb_eq in Hz. rewrite Hz in H1. symmetry in H1.
      apply Nat.eqb_eq in H1. destruct cs; [reflexivity | discriminate].
    - intros Hnil. destruct cs; [reflexivity | discriminate]. }
  destruct (get idx (Js.slice0 10 (data call))) as [meta|].
  - destruct (prop_name meta) as [n|]; [|discriminate]. intros [= <-].
    apply Hcs. unfold rule_part, RULES. cbn [List.filter regex].
    unfold payable_part, value_part.
    repeat match goal with |- context [if test ?r ?n then _ else _] =>
      destruct (test r n) end;
    destruct (is_payable meta), (value_attached call); vm_compute; reflexivity.
  - intros [= <-]. apply Hcs. unfold value_part.
    destruct (value_attached call); vm_compute; reflexivity.
Qed.

End AnalyzerExtras.

(** ** Values given as decimal strings *)

Module ValueFacts.

Import Number NumberFacts StringToNumber.

(** The number of a positive integer is positive: it is not rounded to 0. *)
Lemma round_integer_positive (p : Z) :
  0 < p -> gt (round false p 1) zero = true.
Proof.
  intros Hp. unfold round.
  pose proof (floor_log2_bracket p 1 Hp ltac:(lia)) as Hb.
  set (L := floor_log2 p 1) in *.
  assert (HL0 : 0 <= L).
  { destruct (Z_lt_le_dec L 0) as [Hneg|]; [|assumption].
    rewrite scaled_neg in Hb by assumption.
    assert (2 ^ 1 <= 2 ^ (- L)) by (apply Z.pow_le_mono_r; lia).
    change (2 ^ 1) with 2 in *. nia. }
  rewrite scaled_nonneg in Hb by assumption.
  rewrite Z.max_l by lia.
  pose proof (nearest_even_close p 1 (L - 52)) as Hk.
  set (k := nearest_even p 1 (L - 52)) in *.
  assert (Hkpos : 0 < k).
  { destruct (Z_lt_le_dec (L - 52) 0) as [Hneg|Hpos].
    - rewrite scaled_neg in Hk by assumption.
      pose proof (pow2_pos (- (L - 52)) ltac:(lia)). specialize (Hk ltac:(lia)). nia.
    - rewrite scaled_nonneg in Hk by assumption.
      pose proof (pow2_pos (L - 52) Hpos) as HP. specialize (Hk ltac:(lia)).
      assert (2 ^ (L - 52) <= 2 ^ L) by (apply Z.pow_le_mono_r; lia). nia. }
  rewrite (proj2 (Z.eqb_neq k 0)) by lia.
  destruct (1024 <? _); [reflexivity|]. destruct (k =? 2 ^ 53); reflexivity.
Qed.

Lemma digit_not_space (c : ascii) : is_digit c = true -> is_space c = false.
Proof. destruct c as [[] [] [] [] [] [] [] []]; intros H; try discriminate H; reflexivity. Qed.

Lemma digit_value_digit (c : ascii) :
  is_digit c = true -> digit_value 10 c = Some (Z.of_N (N_of_ascii c) - 48).
Proof. destruct c as [[] [] [] [] [] [] [] []]; intros H; try discriminate H; reflexivity. Qed.

Lemma digit_range (c : ascii) :
  is_digit c = true -> 0 <= Z.of_N (N_of_ascii c) - 48 <= 9.
Proof.
  destruct c as [[] [] [] [] [] [] [] []]; intros H; try discriminate H; cbv; split; discriminate.
Qed.

Lemma trim_start_digits (s : string) :
  string_forall is_digit s = true -> trim_start s = s.
Proof.
  destruct s as [|c s]; [reflexivity|]. simpl. intros H.
  apply andb_true_iff in H as [Hc _]. now rewrite digit_not_space.
Qed.

Lemma trim_end_digits (s : string) :
  string_forall is_digit s = true -> trim_end s = s.
Proof.
  induction s as [|c s IH]; [reflexivity|]. simpl. intros H.
  apply andb_true_iff in H as [Hc Hs]. rewrite IH by assumption.
  destruct s; [now rewrite digit_not_space | reflexivity].
Qed.

Lemma span_digits_all (acc : Z) (s : string) :
  string_forall is_digit s = true ->
  span_digits acc s = (String.length s, digits_to_Z acc s, EmptyString).
Proof.
  revert acc. induction s as [|c s IH]; intros acc H; [reflexivity|]. simpl in *.
  apply andb_true_iff in H as [Hc Hs].
  now rewrite digit_value_digit, IH.
Qed.

Lemma digits_to_Z_nonneg (acc : Z) (s : string) :
  string_forall is_digit s = true -> 0 <= acc -> 0 <= digits_to_Z acc s.
Proof.
  revert acc. induction s as [|c s IH]; intros acc H Hacc; [assumption|]. simpl in *.
  apply andb_true_iff in H as [Hc Hs]. apply IH; [assumption|].
  pose proof (digit_range c Hc). lia.
Qed.

(** A string of decimal digits is read as an unsigned decimal literal. *)
Lemma StringToNumber_digits (c : ascii) (s : string) :
  string_forall is_digit (String c s) = true ->
  StringToNumber (String c s) = unsigned_decimal false (String c s).
Proof.
  intros H. unfold StringToNumber.
  rewrite trim_start_digits, trim_end_digits by assumption.
  simpl in H. apply andb_true_iff in H as [Hc Hs].
  destruct c as [[] [] [] [] [] [] [] []]; try discriminate Hc; try reflexivity.
  destruct s as [|c2 s]; [reflexivity|].
  simpl in Hs. apply andb_true_iff in Hs as [Hc2 _].
  destruct c2 as [[] [] [] [] [] [] [] []]; try discriminate Hc2; reflexivity.
Qed.

Lemma unsigned_decimal_digits (c : ascii) (s : string) :
  string_forall is_digit (String c s) = true ->
  unsigned_decimal false (String c s)
  = decimal false (digits_to_Z 0 (String c s)) 0.
Proof.
  intros H. unfold unsigned_decimal.
  assert (Hinf : String.eqb (String c s) "Infinity" = false).
  { simpl in H. apply andb_true_iff in H as [Hc _].
    destruct c as [[] [] [] [] [] [] [] []]; try discriminate Hc; reflexivity. }
  rewrite Hinf, span_digits_all by assumption. reflexivity.
Qed.

End ValueFacts.

(** X17: a value given as a string of decimal digits, of any length, gets
    the "ETH value attached" penalty exactly when the integer it denotes is
    not 0; the empty string gets none. *)
Theorem decimal_string_value (call : QueuedCall) (s : string) :
  value call = Str s ->
  string_forall is_digit s = true ->
  value_attached call = negb (digits_to_Z 0 s =? 0).
Proof.
  intros Hv Hs. unfold value_attached, or_else. rewrite Hv.
  destruct s as [|c s]; [reflexivity|].
  cbn [truthy String.eqb negb ToNumber].
  rewrite ValueFacts.StringToNumber_digits, ValueFacts.unsigned_decimal_digits by assumption.
  unfold StringToNumber.decimal.
  pose proof (ValueFacts.digits_to_Z_nonneg 0 (String c s) Hs ltac:(lia)) as Hpos.
  destruct (Z.eqb_spec (digits_to_Z 0 (String c s)) 0) as [Hz|Hz]; [reflexivity|].
  change (0 <=? 0) with true. cbv iota. change (10 ^ 0) with 1. rewrite Z.mul_1_r.
  apply ValueFacts.round_integer_positive. lia.
Qed.

Lemma decimal_string_value_witness :
  value_attached (mkCall "0xVault" "0xd0e30db0" (Str "1000000000000000000000000000000"))
  = true.
Proof.
  exact (decimal_string_value
           (mkCall "0xVault" "0xd0e30db0" (Str "1000000000000000000000000000000"))
           "1000000000000000000000000000000" eq_refl eq_refl).
Defined.

(** ** More on the report *)

Section ReportMore.

Lemma analyzeCall_selector (idx : gmap string FunctionMeta) (call : QueuedCall)
    (r : AnalysisResult) :
  analyzeCall idx call = Return r -> selector r = call_selector call.
Proof.
  rewrite analyzeCall_closed. cbv zeta.
  destruct (get idx _) as [meta|]; [destruct (prop_name meta)|];
    intros [= <-]; reflexivity.
Qed.

(** What the loop returns is what it was given plus one result per call. *)
Lemma analyze_all_inv (idx : gmap string FunctionMeta) (calls : list QueuedCall)
    (acc rs : list AnalysisResult) :
  analyze_all idx calls acc = Return rs ->
  exists rs', rs = acc ++ rs' /\ Forall2 (result_of_call idx) calls rs'.
Proof.
  revert acc. induction calls as [|c calls IH]; intros acc H; simpl in H.
  - injection H as <-. exists []. split; [now rewrite app_nil_r | constructor].
  - destruct (analyzeCall idx c) as [r| | |] eqn:Hc; simpl in H; try discriminate.
    apply IH in H as (rs' & -> & Hrs').
    exists (set_target r (to c) :: rs'). split; [now rewrite <- app_assoc|].
    constructor; [|assumption]. exists r. split; [assumption | reflexivity].
Qed.

Lemma results_exist (idx : gmap string FunctionMeta) (calls : list QueuedCall) :
  Forall (fun c => analyzeCall idx c <> TypeError) calls ->
  exists rs, Forall2 (result_of_call idx) calls rs.
Proof.
  induction 1 as [|c calls Hc _ (rs & IH)]; [exists []; constructor|].
  destruct (analyzeCall_outcomes idx c) as [(r & Hr)|Hr]; [|contradiction].
  exists (set_target r (to c) :: rs). constructor; [|assumption].
  exists r. split; [assumption | reflexivity].
Qed.

Lemma results_permutation (idx : gmap string FunctionMeta)
    (calls calls' : list QueuedCall) :
  calls ≡ₚ calls' ->
  forall rs, Forall2 (result_of_call idx) calls rs ->
  exists rs', Forall2 (result_of_call idx) calls' rs' /\ rs ≡ₚ rs'.
Proof.
  induction 1 as [|c l l' _ IH|c d l|l l' l'' _ IH1 _ IH2]; intros rs Hrs.
  - exists rs. split; [assumption | reflexivity].
  - inversion Hrs as [|? r ? rs0 Hr Hrs0]; subst.
    destruct (IH rs0 Hrs0) as (rs' & H' & Hp).
    exists (r :: rs'). split; [now constructor | now constructor].
  - inversion Hrs as [|? r ? rs0 Hr Hrs0]; subst.
    inversion Hrs0 as [|? r2 ? rs1 Hr2 Hrs1]; subst.
    exists (r2 :: r :: rs1). split; [repeat constructor; assumption | apply perm_swap].
  - destruct (IH1 rs Hrs) as (rs' & H' & Hp).
    destruct (IH2 rs' H') as (rs'' & H'' & Hp').
    exists rs''. split; [assumption | etransitivity; eassumption].
Qed.

Lemma sum_risks_permutation (rs rs' : list AnalysisResult) :
  rs ≡ₚ rs' -> sum_risks rs = sum_risks rs'.
Proof.
  induction 1 as [|r l l' _ IH|r s l|l l' l'' _ IH1 _ IH2]; simpl; lia.
Qed.

Lemma sum_risks_equal (rs : list AnalysisResult) (r : Z) :
  Forall (fun x => risk x = r) rs -> sum_risks rs = r * Z.of_nat (length rs).
Proof.
  induction 1 as [|x rs Hx _ IH]; [simpl; lia|].
  cbn [sum_risks fold_right]. fold (sum_risks rs). rewrite IH, Hx.
  cbn [length]. lia.
Qed.

Lemma report_of_items (rs : list AnalysisResult) (rep : Report) :
  report_of rs = Return rep -> items rep = rs.
Proof.
  unfold report_of. destruct (negb _).
  - destruct (toFixed2 _); simpl; [|discriminate]. now intros [= <-].
  - simpl. now intros [= <-].
Qed.

Lemma fixed2_whole (r : Z) : 0 <= r -> fixed2 (100 * r) = pretty r +:+ ".00".
Proof.
  intros Hr. unfold fixed2.
  replace (100 * r / 100) with r by (rewrite Z.mul_comm, Z.div_mul; lia).
  replace (100 * r / 10 mod 10) with 0.
  2:{ replace (100 * r) with (10 * r * 10) by lia.
      rewrite Z.div_mul by lia. rewrite Z.mul_comm, Z.mod_mul; lia. }
  replace (100 * r mod 10) with 0.
  2:{ replace (100 * r) with (10 * r * 10) by lia. rewrite Z.mod_mul; lia. }
  reflexivity.
Qed.

End ReportMore.

Section ReportCases.

(** On an index without the key [__proto__], the queue either has a call
    with that selector, and the loop throws, or a report is returned. *)
Lemma report_cases (idx : gmap string FunctionMeta) (calls : list QueuedCall) :
  idx !! "__proto__" = None ->
  Z.of_nat (length calls) < 2 ^ 32 ->
  (Exists (fun c => call_selector c = "__proto__") calls /\
   bind (analyze_all idx calls []) report_of = TypeError) \/
  (~ Exists (fun c => call_selector c = "__proto__") calls /\
   exists report, bind (analyze_all idx calls []) report_of = Return report /\
                  length (items report) = length calls).
Proof.
  intros Hproto Hlen.
  assert (Hthrow : forall c, analyzeCall idx c = TypeError <->
                             call_selector c = "__proto__").
  { intros c. rewrite analyzeCall_TypeError_iff. tauto. }
  assert (Hcases : Exists (fun c => analyzeCall idx c = TypeError) calls \/
                   Forall (fun c => analyzeCall idx c <> TypeError) calls).
  { clear. induction calls as [|c calls [IH|IH]]; [right; constructor | left; now right |].
    destruct (analyzeCall_outcomes idx c) as [(r & Hc)|Hc];
      [right | left; now left]; constructor; congruence. }
  destruct Hcases as [H|H].
  - left. split; [|now apply analyze_all_throws].
    apply Exists_exists in H as (c & Hin & Hc). apply Exists_exists.
    exists c. split; [assumption | now apply Hthrow].
  - right. split.
    + intros Hex. apply Exists_exists in Hex as (c & Hin & Hc).
      rewrite Forall_forall in H. apply (H c Hin). now apply Hthrow.
    + destruct (results_exist idx calls H) as (rs & Hrs).
      rewrite (analyze_all_results _ _ rs) by assumption. cbn [app bind].
      destruct (report_of_results rs) as (avg & n & -> & _).
      * eapply sum_risks_bound; eassumption.
      * now rewrite <- (Forall2_length _ _ _ Hrs).
      * eexists; split; [reflexivity|]. cbn [items].
        symmetry. eapply Forall2_length; eassumption.
Qed.

(** What [main] returns is the report of the results on the index built. *)
Lemma main_inv (createHash : string -> Outcome Hash) (abi : list AbiEntry)
    (calls : list QueuedCall) (report : Report) :
  main createHash abi calls = Return report ->
  exists idx rs, buildSelectorIndex createHash abi = Return idx /\
                 Forall2 (result_of_call idx) calls rs /\
                 report_of rs = Return report.
Proof.
  unfold main.
  destruct (buildSelectorIndex createHash abi) as [idx| | |]; try discriminate.
  cbn [bind].
  destruct (analyze_all idx calls []) as [rs| | |] eqn:Hall; try discriminate.
  apply analyze_all_inv in Hall as (rs' & -> & Hrs). cbn [app bind].
  intros Hrep. exists idx, rs'. repeat split; assumption.
Qed.

Lemma main_results (createHash : string -> Outcome Hash) (abi : list AbiEntry)
    (idx : gmap string FunctionMeta) (calls : list QueuedCall) (rs : list AnalysisResult) :
  buildSelectorIndex createHash abi = Return idx ->
  Forall2 (result_of_call idx) calls rs ->
  main createHash abi calls = report_of rs.
Proof.
  intros Hidx Hrs. unfold main. rewrite Hidx. cbn [bind].
  now rewrite (analyze_all_results _ _ rs) by assumption.
Qed.

(** No rule matches the name of a method every object inherits. *)
Lemma builtin_names_unflagged :
  forallb (fun k => match rule_part RULES (Js.toLowerCase k) with
                    | [] => true
                    | _ => false
                    end) ("Object" :: Object_prototype_methods) = true.
Proof. vm_compute. reflexivity. Qed.

(** On the empty index a call is scored as unknown or, for the name of an
    inherited method, not at all. *)
Lemma analyzeCall_empty_index (c : QueuedCall) (r : AnalysisResult) :
  analyzeCall ∅ c = Return r -> In (risk r, reasons r) unflagged_scores.
Proof.
  rewrite analyzeCall_closed. cbv zeta. unfold get. rewrite lookup_empty.
  generalize (Js.slice0 10 (data c)). intros sel.
  assert (Hquiet : forall k, In k ("Object" :: Object_prototype_methods) ->
                             rule_part RULES (Js.toLowerCase k) = []).
  { intros k Hk. pose proof builtin_names_unflagged as H.
    rewrite forallb_forall in H. specialize (H k Hk).
    now destruct (rule_part RULES (Js.toLowerCase k)). }
  assert (Hv : value_part c = [] \/ value_part c = [(5, "ETH value attached")])
    by (unfold value_part; destruct (value_attached c); auto).
  unfold Object_prototype.
  destruct (String.eqb sel "__proto__"); [discriminate|].
  destruct (String.eqb sel "constructor").
  { cbn [prop_name]. rewrite (Hquiet "Object") by now left.
    intros [= <-]. destruct Hv as [-> | ->]; cbn; tauto. }
  destruct (existsb (String.eqb sel) Object_prototype_methods) eqn:Hm.
  - cbn [prop_name]. apply existsb_exists in Hm as (k & Hk & Heq).
    apply String.eqb_eq in Heq. subst k. rewrite (Hquiet sel) by now right.
    intros [= <-]. destruct Hv as [-> | ->]; cbn; tauto.
  - intros [= <-]. destruct Hv as [-> | ->]; cbn; tauto.
Qed.

End ReportCases.

(** X18: what [main] does on Node, for a queue of fewer than [2^32] calls.
    A description with a function entry makes it throw before any call is
    looked at, whatever the queue; on a description without one, one call
    whose data is [__proto__] suppresses the whole report; in every other
    case it returns a report with one item per call. *)
Theorem main_throws_iff (abi : list AbiEntry) (calls : list QueuedCall) :
  Z.of_nat (length calls) < 2 ^ 32 ->
  (main node_createHash abi calls = DigestNotSupported <-> has_function abi = true) /\
  (main node_createHash abi calls = TypeError <->
   has_function abi = false /\
   Exists (fun c => call_selector c = "__proto__") calls) /\
  (has_function abi = false ->
   ~ Exists (fun c => call_selector c = "__proto__") calls ->
   exists report, main node_createHash abi calls = Return report /\
                  length (items report) = length calls).
Proof.
  intros Hlen. unfold main. rewrite node_build.
  destruct (has_function abi); cbn [bind].
  - split; [tauto|]. split; [|discriminate].
    split; [discriminate | intros [? _]; discriminate].
  - destruct (report_cases ∅ calls (lookup_empty _) Hlen)
      as [[Hex ->]|[Hno (report & -> & Hitems)]].
    + split; [split; discriminate|]. split; [tauto | contradiction].
    + split; [split; discriminate|]. split.
      * split; [discriminate | intros [_ Hex]; contradiction].
      * intros _ _. now exists report.
Qed.

(** X6: on Node no rule ever fires.  The index of a returned report is
    empty, so every item is scored as an unknown selector or, for the name
    of an inherited method, not at all, with the value penalty or without:
    no item carries the reason of a rule or "Payable call", and no risk is
    above 15. *)
Theorem node_rules_never_fire (abi : list AbiEntry) (calls : list QueuedCall)
    (report : Report) :
  main node_createHash abi calls = Return report ->
  Forall (fun item => In (risk item, reasons item) unflagged_scores) (items report).
Proof.
  intros Hmain. apply main_inv in Hmain as (idx & rs & Hidx & Hrs & Hrep).
  rewrite (report_of_items _ _ Hrep). clear Hrep.
  rewrite node_build in Hidx. destruct (has_function abi); [discriminate|].
  injection Hidx as <-.
  induction Hrs as [|c r calls rs (r0 & Hr0 & ->) _ IH]; constructor; [|exact IH].
  cbn [set_target risk reasons]. now apply (analyzeCall_empty_index c).
Qed.

Section ReportExtras.

Variable createHash : string -> Outcome Hash.

(** X19: when every item of a returned report has the same risk [r], in
    particular when there is one call, the average is [r] in decimal digits
    followed by the fraction digits [00]. *)
Theorem average_of_equal_risks (abi : list AbiEntry) (calls : list QueuedCall)
    (report : Report) (r : Z) :
  Z.of_nat (length calls) < 2 ^ 32 ->
  calls <> [] ->
  main createHash abi calls = Return report ->
  Forall (fun x => risk x = r) (items report) ->
  avgRisk report = pretty r +:+ ".00" /\
  two_fraction_digits (avgRisk report) (100 * r).
Proof.
  intros Hlen Hne Hmain Hall.
  apply main_inv in Hmain as (idx & results & _ & Hres & Hrep).
  rewrite (report_of_items _ _ Hrep) in Hall.
  pose proof (sum_risks_bound _ _ _ Hres) as Hb.
  destruct (report_of_results results) as (avg & n & Hrep' & _ & -> & Hn & Hnear).
  - assumption.
  - now rewrite <- (Forall2_length _ _ _ Hres).
  - rewrite Hrep' in Hrep. injection Hrep as <-. cbn [avgRisk].
    rewrite (sum_risks_equal results r Hall) in Hnear, Hb.
    assert (Hl : 0 < Z.of_nat (length results)).
    { rewrite <- (Forall2_length _ _ _ Hres). destruct calls; [congruence | simpl; lia]. }
    assert (Hr0 : 0 <= r) by nia.
    assert (n = 100 * r) as -> by nia.
    split; [now rewrite fixed2_whole | now apply fixed2_two_fraction_digits].
Qed.

(** X20: the average is never above 120.00: it is [n / 100] on two fraction
    digits with [n] between 0 and 12000. *)
Theorem average_range (abi : list AbiEntry) (calls : list QueuedCall) (report : Report) :
  Z.of_nat (length calls) < 2 ^ 32 ->
  main createHash abi calls = Return report ->
  exists n, avgRisk report = fixed2 n /\ 0 <= n <= 12000.
Proof.
  intros Hlen Hmain.
  apply main_inv in Hmain as (idx & rs' & _ & Hrs & Hrep). revert Hrep.
  pose proof (sum_risks_bound _ _ _ Hrs) as Hb.
  destruct rs' as [|x rs'].
  { intros [= <-]. exists 0. split; [reflexivity | lia]. }
  destruct (report_of_results (x :: rs')) as (avg & n & -> & _ & -> & Hn & Hnear).
  - assumption.
  - now rewrite <- (Forall2_length _ _ _ Hrs).
  - intros [= <-]. exists n. split; [reflexivity|].
    assert (Hl : 0 < Z.of_nat (length (x :: rs'))) by (simpl; lia). nia.
Qed.

(** X21: the items of two queues analysed one after the other are the items
    of the first followed by those of the second. *)
Theorem items_of_concatenation (abi : list AbiEntry) (calls1 calls2 : list QueuedCall)
    (report1 report2 : Report) :
  Z.of_nat (length (calls1 ++ calls2)) < 2 ^ 32 ->
  main createHash abi calls1 = Return report1 ->
  main createHash abi calls2 = Return report2 ->
  exists report, main createHash abi (calls1 ++ calls2) = Return report /\
                 items report = items report1 ++ items report2.
Proof.
  intros Hlen H1 H2.
  apply main_inv in H1 as (idx & rs1 & Hidx & Hrs1 & Hr1).
  apply main_inv in H2 as (idx' & rs2 & Hidx' & Hrs2 & Hr2).
  assert (idx' = idx) as -> by congruence.
  apply report_of_items in Hr1, Hr2. rewrite Hr1, Hr2.
  assert (Hrs : Forall2 (result_of_call idx) (calls1 ++ calls2) (rs1 ++ rs2))
    by now apply Forall2_app.
  rewrite (main_results _ _ _ _ _ Hidx Hrs).
  destruct (report_of_results (rs1 ++ rs2)) as (avg & n & -> & _).
  - eapply sum_risks_bound; eassumption.
  - now rewrite <- (Forall2_length _ _ _ Hrs).
  - eexists; split; reflexivity.
Qed.

(** X22: the order of the queue only orders the items: a permutation of the
    calls gives the same average and a permutation of the items. *)
Theorem report_of_permutation (abi : list AbiEntry) (calls calls' : list QueuedCall)
    (report : Report) :
  calls ≡ₚ calls' ->
  main createHash abi calls = Return report ->
  exists report', main createHash abi calls' = Return report' /\
                  avgRisk report' = avgRisk report /\
                  items report' ≡ₚ items report.
Proof.
  intros Hperm Hmain.
  apply main_inv in Hmain as (idx & rs0 & Hidx & Hrs & Hrep). revert Hrep.
  destruct (results_permutation _ _ _ Hperm rs0 Hrs) as (rs' & Hrs' & Hp).
  rewrite (main_results _ _ _ _ _ Hidx Hrs').
  unfold report_of. rewrite !total_risk_sum.
  rewrite <- (sum_risks_permutation _ _ Hp), <- (Permutation_length Hp).
  destruct (negb _).
  - destruct (toFixed2 _); simpl; [|discriminate]. intros [= <-].
    eexists; split; [reflexivity|]. split; [reflexivity | now symmetry].
  - simpl. intros [= <-]. eexists; split; [reflexivity|].
    split; [reflexivity | now symmetry].
Qed.

(** X23: every item echoes its call: the selectors of the items are the
    first ten characters of the calls' data and the targets are the calls'
    [to] fields, in the order of the queue. *)
Theorem items_echo_calls (abi : list AbiEntry) (calls : list QueuedCall) (report : Report) :
  main createHash abi calls = Return report ->
  map selector (items report) = map call_selector calls /\
  map target (items report) = map (fun c => Some (to c)) calls.
Proof.
  intros Hmain.
  apply main_inv in Hmain as (idx & rs' & _ & Hrs & Hrep).
  apply report_of_items in Hrep. rewrite Hrep. clear Hrep.
  induction Hrs as [|c r calls rs (r0 & Hr0 & ->) _ [IH1 IH2]]; [split; reflexivity|].
  simpl. rewrite IH1, IH2. split; [|reflexivity].
  f_equal. eapply analyzeCall_selector; eassumption.
Qed.

End ReportExtras.

(** ** The further statements on concrete documents *)

Lemma word_rules_meaning_witness :
  (In "Potential delegatecall use" (reasons mintAndPause_result)
   <-> contains "delegatecall" (Js.toLowerCase (name mintAndPause_meta))) /\
  (In "Token minting" (reasons mintAndPause_result)
   <-> contains "mint" (Js.toLowerCase (name mintAndPause_meta))) /\
  (In "Pausing contract" (reasons mintAndPause_result)
   <-> contains "pause" (Js.toLowerCase (name mintAndPause_meta))).
Proof.
  assert (H1 : sample_index !! call_selector sample_call = Some mintAndPause_meta)
    by (vm_compute; reflexivity).
  assert (H2 : analyzeCall sample_index sample_call = Return mintAndPause_result)
    by (vm_compute; reflexivity).
  exact (word_rules_meaning sample_index sample_call mintAndPause_meta
           mintAndPause_result H1 H2).
Defined.

Lemma upgrade_proxy_meaning_witness :
  In "Proxy upgrade" (reasons upgradeTo_result) <->
  followed_by "upgrade" "implementation" (Js.toLowerCase (name upgradeTo_meta)) \/
  followed_by "upgrade" "proxy" (Js.toLowerCase (name upgradeTo_meta)).
Proof.
  assert (H1 : sample_index !! call_selector upgrade_call = Some upgradeTo_meta)
    by (vm_compute; reflexivity).
  assert (H2 : analyzeCall sample_index upgrade_call = Return upgradeTo_result)
    by (vm_compute; reflexivity).
  exact (upgrade_proxy_meaning sample_index upgrade_call upgradeTo_meta
           upgradeTo_result H1 H2).
Defined.

Lemma role_admin_meaning_witness :
  In "Role change" (reasons grantRole_result) <->
  followed_by "grant" "role" (Js.toLowerCase (name grantRole_meta)) \/
  followed_by "revoke" "role" (Js.toLowerCase (name grantRole_meta)).
Proof.
  assert (H1 : sample_index !! call_selector grant_call = Some grantRole_meta)
    by (vm_compute; reflexivity).
  assert (H2 : analyzeCall sample_index grant_call = Return grantRole_result)
    by (vm_compute; reflexivity).
  exact (role_admin_meaning sample_index grant_call grantRole_meta
           grantRole_result H1 H2).
Defined.

Lemma hex_unknown_selector_witness :
  analyzeCall sample_index (mkCall "0xVault" "0xdeadbeef" (Str "7"))
  = Return (mkResult 15 ["Unknown selector (not in ABI)"; "ETH value attached"]
                     "0xdeadbeef" None).
Proof.
  exact (hex_unknown_selector sample_index
           (mkCall "0xVault" "0xdeadbeef" (Str "7")) "xdeadbeef" eq_refl
           ltac:(vm_compute; reflexivity)).
Defined.

Lemma analyzeCall_result_invariants_witness :
  0 <= risk mintAndPause_result <= 120 /\ risk mintAndPause_result mod 5 = 0 /\
  (length (reasons mintAndPause_result) <= 7)%nat /\
  List.NoDup (reasons mintAndPause_result) /\
  (risk mintAndPause_result = 0 <-> reasons mintAndPause_result = []) /\
  selector mintAndPause_result = call_selector sample_call /\
  target mintAndPause_result = None.
Proof.
  assert (H : analyzeCall sample_index sample_call = Return mintAndPause_result)
    by (vm_compute; reflexivity).
  exact (analyzeCall_result_invariants sample_index sample_call mintAndPause_result H).
Defined.

Lemma main_throws_iff_witness :
  (main node_createHash erc20_abi sample_calls = DigestNotSupported
   <-> has_function erc20_abi = true) /\
  (main node_createHash erc20_abi sample_calls = TypeError <->
   has_function erc20_abi = false /\
   Exists (fun c => call_selector c = "__proto__") sample_calls) /\
  (has_function erc20_abi = false ->
   ~ Exists (fun c => call_selector c = "__proto__") sample_calls ->
   exists report, main node_createHash erc20_abi sample_calls = Return report /\
                  length (items report) = length sample_calls).
Proof.
  exact (main_throws_iff erc20_abi sample_calls ltac:(vm_compute; reflexivity)).
Defined.

Lemma sample_report_returned :
  main node_createHash sample_abi sample_calls = Return sample_report.
Proof. vm_compute. reflexivity. Qed.

Lemma node_rules_never_fire_witness :
  Forall (fun item => In (risk item, reasons item) unflagged_scores) sample_results.
Proof.
  exact (node_rules_never_fire sample_abi sample_calls sample_report
           sample_report_returned).
Defined.

Lemma average_of_equal_risks_witness :
  "10.00" = pretty 10 +:+ ".00" /\ two_fraction_digits "10.00" (100 * 10).
Proof.
  assert (H : main node_createHash sample_abi [mkCall "0xVault" "0xdeadbeef" Undefined]
              = Return (mkReport "10.00"
                          [mkResult 10 ["Unknown selector (not in ABI)"] "0xdeadbeef"
                                    (Some "0xVault")]))
    by (vm_compute; reflexivity).
  exact (average_of_equal_risks node_createHash sample_abi
           [mkCall "0xVault" "0xdeadbeef" Undefined] _ 10
           ltac:(vm_compute; reflexivity) ltac:(discriminate) H
           ltac:(repeat constructor)).
Defined.

Lemma average_range_witness :
  exists n, "11.67" = fixed2 n /\ 0 <= n <= 12000.
Proof.
  exact (average_range node_createHash sample_abi sample_calls sample_report
           ltac:(vm_compute; reflexivity) sample_report_returned).
Defined.

Lemma items_of_concatenation_witness :
  exists report,
    main node_createHash sample_abi (sample_calls ++ sample_calls) = Return report /\
    items report = sample_results ++ sample_results.
Proof.
  exact (items_of_concatenation node_createHash sample_abi sample_calls sample_calls
           sample_report sample_report ltac:(vm_compute; reflexivity)
           sample_report_returned sample_report_returned).
Defined.

Lemma report_of_permutation_witness :
  exists report',
    main node_createHash sample_abi (rev sample_calls) = Return report' /\
    avgRisk report' = "11.67" /\ items report' ≡ₚ sample_results.
Proof.
  exact (report_of_permutation node_createHash sample_abi sample_calls (rev sample_calls)
           sample_report (Permutation_rev _) sample_report_returned).
Defined.

Lemma items_echo_calls_witness :
  map selector sample_results = map call_selector sample_calls /\
  map target sample_results = map (fun c => Some (to c)) sample_calls.
Proof.
  exact (items_echo_calls node_createHash sample_abi sample_calls sample_report
           sample_report_returned).
Defined.
